(** * Co-investment network dashboard: the analytics pipeline of [app.py]

    A shallow embedding of [create_co_investment_pairs],
    [generate_network_figure] and [update_graph], with the properties of the
    specification stated over it.

    Conventions of the embedding.
    - Python [str] is [string]; the text is taken to be ASCII, so [strip]
      removes the ASCII white space of [str.isspace] and [lower] maps [A-Z].
    - The DataFrame [df] is the list of its rows, in index order; a row keeps
      the six columns the pipeline reads.  [Announced Date] is the column after
      [pd.to_datetime(..., errors='coerce')]: its year, or [None] for [NaT].
    - [investor_info] (a dict) is a [gmap] from names to a record; the
      networkx graph is its adjacency dict, a [gmap] from a node to the set of
      its neighbours.  Python dicts keep insertion order; a [gmap] does not,
      and nothing stated below depends on that order.
    - Money is an IEEE-754 binary64 number, the kernel's primitive [float].
    - Two library functions are left as parameters of the pipeline: [float]
      applied to a [str], and the regular-expression engine behind
      [Series.str.contains] for patterns that contain metacharacters.
    - The 3D spring layout and the plotly styling are not modelled: a figure
      keeps its title, the edge list, and per node the name, the degree, the
      hover details and the marker size. *)

From Stdlib Require Import ZArith List Ascii Lia.
From Stdlib Require Floats.PrimFloat Floats.SpecFloat Floats.FloatOps.
From stdpp Require Import base gmap sets list strings fin_maps sorting.
Import (notations) PrimFloat.

Set Warnings "-clear-no-such-hyp".  (* raised inside set_solver *)

Abbreviation float := PrimFloat.float.

(** ** Python string methods used by the pipeline *)

Module PyStr.

(** [c.isspace()] for an ASCII character: TAB..CR, FS..US and the space. *)
Definition isspace (c : ascii) : bool :=
  let n := nat_of_ascii c in
  ((9 <=? n) && (n <=? 13)) || ((28 <=? n) && (n <=? 32)).

Fixpoint lstrip (s : string) : string :=
  match s with
  | EmptyString => EmptyString
  | String c r => if isspace c then lstrip r else s
  end.

Fixpoint rstrip (s : string) : string :=
  match s with
  | EmptyString => EmptyString
  | String c r =>
      match rstrip r with
      | EmptyString => if isspace c then EmptyString else String c EmptyString
      | r' => String c r'
      end
  end.

(** [s.strip()] *)
Definition strip (s : string) : string := rstrip (lstrip s).

Definition lower_char (c : ascii) : ascii :=
  let n := nat_of_ascii c in
  if (65 <=? n) && (n <=? 90) then ascii_of_nat (n + 32) else c.

(** [s.lower()] *)
Fixpoint lower (s : string) : string :=
  match s with
  | EmptyString => EmptyString
  | String c r => String (lower_char c) (lower r)
  end.

(** [s.split(',')]: every comma separates, so the result is never empty and
    [''.split(',') == ['']]. *)
Fixpoint split_comma (s : string) : list string :=
  match s with
  | EmptyString => [EmptyString]
  | String c r =>
      if decide (c = ","%char) then EmptyString :: split_comma r
      else match split_comma r with
           | h :: t => String c h :: t
           | [] => [String c EmptyString]
           end
  end.

(** [bool(s)]: a string is true when it is not empty. *)
Definition truthy (s : string) : bool :=
  match s with EmptyString => false | String _ _ => true end.

(** [pat in s] *)
Fixpoint contains (pat s : string) : bool :=
  String.prefix pat s
  || match s with
     | EmptyString => false
     | String _ r => contains pat r
     end.

(** The characters that are special in a Python regular expression. *)
Definition regex_special (c : ascii) : bool :=
  bool_decide (c ∈ [ "."; "^"; "$"; "*"; "+"; "?"; "{"; "}"; "["; "]";
                     "\"; "|"; "("; ")" ]%char).

Fixpoint plain_pattern (pat : string) : bool :=
  match pat with
  | EmptyString => true
  | String c r => negb (regex_special c) && plain_pattern r
  end.

End PyStr.

(** ** Cells of the [Money Raised (in USD)] column *)

(** A cell as [row['Money Raised (in USD)']] returns it: [None], an integer
    (of the 64-bit range pandas parses), a float (NaN included), or a
    string. *)
Inductive cell : Type :=
  | CellNone
  | CellInt (z : Z)
  | CellFloat (f : float)
  | CellStr (s : string).

(** [pd.isna(val)] on a scalar. *)
Definition pd_isna (val : cell) : bool :=
  match val with
  | CellNone => true
  | CellFloat f => PrimFloat.is_nan f
  | CellInt _ | CellStr _ => false
  end.

(** [float(z)] for an integer: the nearest binary64 number, ties to even
    (an integer of 64 bits never overflows). *)
Definition float_of_int (z : Z) : float :=
  FloatOps.SF2Prim (SpecFloat.binary_normalize 53 1024 z 0 false).

(** [float(s)] for a string of decimal digits only, used to instantiate the
    string conversion on concrete inputs. *)
Fixpoint digits_value (acc : Z) (s : string) : option Z :=
  match s with
  | EmptyString => Some acc
  | String c r =>
      match Ascii.is_nat c with
      | Some d => digits_value (10 * acc + Z.of_nat d) r
      | None => None
      end
  end.

Definition float_of_digits (s : string) : option float :=
  match PyStr.strip s with
  | EmptyString => None
  | t => float_of_int <$> digits_value 0 t
  end.

(** ** Rows of the DataFrame *)

Record row : Type := Row {
  transaction_name : option string;  (* [None]: the column is absent *)
  organization_name : option string;
  funding_stage : option string;
  announced_year : option Z;         (* [df['Announced Date'].dt.year] *)
  money_raised : cell;
  investor_names : string            (* after [fillna('')] *)
}.

(** [row.get(col, 'n/a')] *)
Definition get_or_na (v : option string) : string := default "n/a" v.

Definition transaction_detail (r : row) : string :=
  get_or_na (transaction_name r) +:+ " | " +:+
  get_or_na (organization_name r) +:+ " | " +:+
  get_or_na (funding_stage r).

(** [[inv.strip() for inv in row['Investor Names'].split(',')]] *)
Definition row_investors (r : row) : list string :=
  map PyStr.strip (PyStr.split_comma (investor_names r)).

(** ** 2. create_co_investment_pairs *)

Definition create_co_investment_pairs (investors : list string)
  : list (string * string) :=
  flat_map (fun i =>
    flat_map (fun j =>
      let a := PyStr.strip (nth i investors EmptyString) in
      let b := PyStr.strip (nth j investors EmptyString) in
      if PyStr.truthy a && PyStr.truthy b then [(a, b)] else [])
      (seq (i + 1) (length investors - (i + 1))))
    (seq 0 (length investors)).

(** ** The networkx graph *)

Abbreviation graph := (gmap string (gset string)).

Definition add_node_if_absent (n : string) (G : graph) : graph :=
  match G !! n with
  | Some _ => G
  | None => <[n := ∅]> G
  end.

(** One turn of the loop of [Graph.add_edges_from] on a 2-tuple. *)
Definition add_edge (G : graph) (e : string * string) : graph :=
  let '(u, v) := e in
  let G := add_node_if_absent u G in
  let G := add_node_if_absent v G in
  let G := alter (fun nbrs => {[v]} ∪ nbrs) u G in
  alter (fun nbrs => {[u]} ∪ nbrs) v G.

Definition add_edges_from (G : graph) (ebunch : list (string * string)) : graph :=
  fold_left add_edge ebunch G.

(** [list(G.nodes())] *)
Definition nodes (G : graph) : list string := (map_to_list G).*1.

(** [G.degree(n)]: the number of neighbours, a self-loop counting twice. *)
Definition degree (G : graph) (n : string) : nat :=
  match G !! n with
  | Some nbrs => size nbrs + (if decide (n ∈ nbrs) then 1 else 0)
  | None => 0
  end.

(** One turn of the loop of [Graph.remove_nodes_from]; a node that is not in
    the graph is skipped (the [KeyError] is caught). *)
Definition remove_node (G : graph) (n : string) : graph :=
  match G !! n with
  | None => G
  | Some nbrs =>
      delete n (foldr (fun u G' => alter (fun s => s ∖ {[n]}) u G') G
                      (elements nbrs))
  end.

Definition remove_nodes_from (G : graph) (ns : list string) : graph :=
  fold_left remove_node ns G.

(** [G.edges()]: every node in turn with its neighbours not yet seen. *)
Fixpoint edges_from (seen : gset string) (adj : list (string * gset string))
  : list (string * string) :=
  match adj with
  | [] => []
  | (n, nbrs) :: rest =>
      map (pair n) (filter (fun v => v ∉ seen) (elements nbrs))
      ++ edges_from ({[n]} ∪ seen) rest
  end.

Definition edges (G : graph) : list (string * string) :=
  edges_from ∅ (map_to_list G).

(** ** Per-investor statistics *)

Record investor_stats : Type := Stats {
  rounds : nat;
  money : float;
  transactions : list string
}.

Definition add_round (st : investor_stats) : investor_stats :=
  Stats (rounds st + 1) (money st) (transactions st).

Definition add_money (m : float) (st : investor_stats) : investor_stats :=
  Stats (rounds st) (money st + m)%float (transactions st).

Definition append_transaction (d : string) (st : investor_stats) : investor_stats :=
  Stats (rounds st) (money st) (transactions st ++ [d]).

(** The body of [for inv in investors] (lines 75-84). *)
Definition update_info (m : float) (detail : string)
    (info : gmap string investor_stats) (inv : string) : gmap string investor_stats :=
  let info :=
    match info !! inv with
    | Some _ => info
    | None => <[inv := Stats 0 0%float []]> info
    end in
  let info := alter add_round inv info in
  let info := alter (add_money m) inv info in
  alter (append_transaction detail) inv info.

(** [investor_info.get(n, {"rounds": d})["rounds"]] *)
Definition rounds_or (d : nat) (info : gmap string investor_stats) (n : string) : nat :=
  match info !! n with
  | Some st => rounds st
  | None => d
  end.

(** [list(dict.fromkeys(l))]: a key enters the dict when it is first met. *)
Definition dict_fromkeys (l : list string) : list string :=
  fold_left (fun keys x => if decide (x ∈ keys) then keys else keys ++ [x]) l [].

(** Lines 149-151: the transactions shown in the hover text. *)
Definition hover_transactions (txs : list string) : list string :=
  let transactions := dict_fromkeys txs in
  if 3 <? length transactions then take 3 transactions ++ ["..."]
  else transactions.

(** ** Figures *)

Inductive figure_title : Type :=
  | TitleText (s : string)
  | TitleNetwork (start_year end_year min_degree min_rounds : Z).

Record hover_details : Type := Hover {
  hover_rounds : nat;
  hover_money : float;
  hover_log : list string
}.

Record node_view : Type := NodeView {
  node_name : string;
  node_degree : nat;
  node_details : option hover_details;
  node_size : nat
}.

Record network : Type := Network {
  net_edges : list (string * string);
  net_nodes : list node_view;
  net_cmin : nat;
  net_cmax : nat
}.

Record figure : Type := Figure {
  fig_title : option figure_title;
  fig_data : option network
}.

(** [go.Figure()] *)
Definition empty_figure : figure := Figure None None.

Inductive exn : Type := TypeError | ReError.

Inductive outcome (A : Type) : Type :=
  | Returned (a : A)
  | Raised (e : exn).
Arguments Returned {A} a.
Arguments Raised {A} e.

(** ** 3. generate_network_figure and 5. update_graph *)

Section Pipeline.

(** [float(s)] on a string; [None] stands for [ValueError]. *)
Variable float_of_str : string -> option float.

(** [re.compile(pat, re.IGNORECASE)] for a pattern with metacharacters:
    [None] stands for [re.error], otherwise what [search] decides. *)
Variable re_compile : string -> option (string -> bool).

(** [float(val)]; [None] stands for [ValueError] or [TypeError]. *)
Definition to_float (val : cell) : option float :=
  match val with
  | CellNone => None
  | CellInt z => Some (float_of_int z)
  | CellFloat f => Some f
  | CellStr s => float_of_str s
  end.

(** Lines 62-69. *)
Definition money_of (val : cell) : float :=
  if pd_isna val
     || match val with
        | CellStr s =>
            bool_decide (PyStr.lower (PyStr.strip s) ∈ ["n/a"; "na"; EmptyString])
        | _ => false
        end
  then 0%float
  else match to_float val with
       | Some f => f
       | None => 0%float
       end.

(** [Series.str.contains(pat, case=False, na=False)] on one value.  The
    pattern is a regular expression; one without metacharacters matches
    where it occurs, letter case ignored. *)
Definition str_contains (pat : string) : option (string -> bool) :=
  if PyStr.plain_pattern pat
  then Some (fun s => PyStr.contains (PyStr.lower pat) (PyStr.lower s))
  else re_compile pat.

Definition year_in_range (start_year end_year : Z) (r : row) : bool :=
  match announced_year r with
  | Some y => (start_year <=? y)%Z && (y <=? end_year)%Z
  | None => false
  end.

(** Lines 50-56. *)
Definition record_filter (start_year end_year : Z)
    (investor_filter : option string) (df : list row) : outcome (list row) :=
  let df_filtered := List.filter (year_in_range start_year end_year) df in
  if decide (investor_filter = Some "All") then Returned df_filtered
  else match investor_filter with
       | None => Raised TypeError
       | Some pat =>
           match str_contains pat with
           | None => Raised ReError
           | Some found =>
               Returned (List.filter (fun r => found (investor_names r)) df_filtered)
           end
       end.

(** Lines 60-84, one row. *)
Definition aggregate_row (info : gmap string investor_stats) (r : row)
  : gmap string investor_stats :=
  let m := money_of (money_raised r) in
  if PyStr.truthy (investor_names r)
  then fold_left (update_info m (transaction_detail r)) (row_investors r) info
  else info.

Definition aggregate (df_filtered : list row) : gmap string investor_stats :=
  fold_left aggregate_row df_filtered ∅.

(** Lines 87-91. *)
Definition co_investments (df_filtered : list row) : list (string * string) :=
  flat_map (fun r =>
    if PyStr.truthy (investor_names r)
    then create_co_investment_pairs (row_investors r) else []) df_filtered.

(** Lines 94-95. *)
Definition build_graph (df_filtered : list row) : graph :=
  add_edges_from ∅ (co_investments df_filtered).

(** Lines 98-99. *)
Definition nodes_to_remove_degree (G : graph) (min_degree : Z) : list string :=
  List.filter (fun n => (Z.of_nat (degree G n) <? min_degree)%Z) (nodes G).

Definition filter_degree (G : graph) (min_degree : Z) : graph :=
  remove_nodes_from G (nodes_to_remove_degree G min_degree).

(** Lines 102-104. *)
Definition nodes_to_remove_rounds (G : graph)
    (investor_info : gmap string investor_stats) (min_rounds : Z) : list string :=
  List.filter (fun n => (Z.of_nat (rounds_or 0 investor_info n) <? min_rounds)%Z)
              (nodes G).

Definition filter_rounds (G : graph) (investor_info : gmap string investor_stats)
    (min_rounds : Z) : graph :=
  remove_nodes_from G (nodes_to_remove_rounds G investor_info min_rounds).

(** Lines 143-159, one node. *)
Definition view_node (G : graph) (investor_info : gmap string investor_stats)
    (n : string) : node_view :=
  NodeView n (degree G n)
    ((fun details => Hover (rounds details) (money details)
                           (hover_transactions (transactions details)))
       <$> investor_info !! n)
    (5 + 2 * rounds_or 1 investor_info n).

Definition no_investors_title : string :=
  "No investors meet the minimum requirements for this time period.".

Definition render (start_year end_year min_degree min_rounds : Z)
    (investor_info : gmap string investor_stats) (G : graph) : figure :=
  match nodes G with
  | [] => Figure (Some (TitleText no_investors_title)) None
  | all_nodes =>
      let node_degrees := map (degree G) all_nodes in
      Figure (Some (TitleNetwork start_year end_year min_degree min_rounds))
             (Some (Network (edges G)
                            (map (view_node G investor_info) all_nodes)
                            (foldr Nat.min (hd 0 node_degrees) node_degrees)
                            (foldr Nat.max (hd 0 node_degrees) node_degrees)))
  end.

Definition generate_network_figure (df : list row)
    (start_year end_year min_degree min_rounds : Z)
    (investor_filter : option string) : outcome figure :=
  match record_filter start_year end_year investor_filter df with
  | Raised e => Raised e
  | Returned df_filtered =>
      let investor_info := aggregate df_filtered in
      let G := build_graph df_filtered in
      let G := filter_degree G min_degree in
      let G := filter_rounds G investor_info min_rounds in
      Returned (render start_year end_year min_degree min_rounds investor_info G)
  end.

(** Lines 367-372; [None] is Python's [None]. *)
Definition update_graph (df : list row) (n_clicks : option Z)
    (investor_perspective : option string)
    (start_year end_year min_degree min_rounds : option Z) : outcome figure :=
  match start_year, end_year, min_degree, min_rounds with
  | Some start_year, Some end_year, Some min_degree, Some min_rounds =>
      let '(start_year, end_year) :=
        if (start_year >? end_year)%Z then (end_year, start_year)
        else (start_year, end_year) in
      generate_network_figure df start_year end_year min_degree min_rounds
                              investor_perspective
  | _, _, _, _ => Returned empty_figure
  end.

End Pipeline.

(** ** 1. Module-level data: year bounds and the investor dropdown *)

(** The years of [df['Announced Date'].dt.year] that are not NaN. *)
Definition parsed_years (df : list row) : list Z := omap announced_year df.

(** [int(df['Announced Date'].dt.year.min())]: [min] skips NaN, and is NaN
    itself when nothing is left, on which [int] raises; [None] stands for
    that [ValueError]. *)
Definition min_year (df : list row) : option Z :=
  match parsed_years df with
  | [] => None
  | y :: ys => Some (foldr Z.min y ys)
  end.

Definition max_year (df : list row) : option Z :=
  match parsed_years df with
  | [] => None
  | y :: ys => Some (foldr Z.max y ys)
  end.

(** Lines 22-26: the set of the trimmed names of all rows, sorted.  The set
    holds each name once, so its sorted list does not depend on the order
    in which the set is read. *)
Definition all_investors (df : list row) : list string :=
  merge_sort String.le
    (elements (list_to_set (flat_map row_investors df) : gset string)).

(** Lines 209-210: the values of the dropdown options. *)
Definition investor_options (df : list row) : list string :=
  "All" :: all_investors df.

(** * Specification-side definitions

    What the specification's words denote, to compare the code with. *)

(** All pairs [(l[i], l[j])] with [i < j], in list order. *)
Fixpoint combinations (l : list string) : list (string * string) :=
  match l with
  | [] => []
  | x :: rest => map (pair x) rest ++ combinations rest
  end.

(** The names of a list that are not empty once trimmed. *)
Definition nonempty_names (investors : list string) : list string :=
  List.filter PyStr.truthy (map PyStr.strip investors).

(** Two edges stand for the same unordered pair. *)
Definition same_unordered (e1 e2 : string * string) : Prop :=
  e1 = e2 \/ e1 = (e2.2, e2.1).

(** [b] is a neighbour of [a]. *)
Definition adjacent (G : graph) (a b : string) : Prop :=
  exists nbrs, G !! a = Some nbrs /\ b ∈ nbrs.

(** How often [x] is listed in [l]. *)
Definition occurrences (x : string) (l : list string) : nat :=
  length (List.filter (fun y => bool_decide (y = x)) l).

(** Deduplication that keeps the first occurrence of every element. *)
Fixpoint first_seen (l : list string) : list string :=
  match l with
  | [] => []
  | x :: rest => x :: filter (fun y => y <> x) (first_seen rest)
  end.

(** The listings of [x] over the rows, a row counting as often as it lists [x]. *)
Definition listed_count (x : string) (df : list row) : nat :=
  sum_list_with (fun r => occurrences x (row_investors r)) df.

(** The rows that list [x], each counting once. *)
Definition rows_listing (x : string) (df : list row) : nat :=
  length (List.filter (fun r => bool_decide (x ∈ row_investors r)) df).

(** What C3 says of a row that the record filter keeps. *)
Definition claimed_keep (start_year end_year : Z) (investor : string) (r : row)
  : Prop :=
  (exists y, announced_year r = Some y /\ (start_year <= y <= end_year)%Z)
  /\ (investor <> "All" -> investor <> "all" ->
      PyStr.contains (PyStr.lower investor) (PyStr.lower (investor_names r)) = true).

(** An outcome that is the empty-result marker with a reason string. *)
Definition reason_marker (o : outcome figure) : Prop :=
  exists reason, o = Returned (Figure (Some (TitleText reason)) None).

(** * Auxiliary definitions of the proofs *)

(** The inner loop of the pair generator for a fixed first name. *)
Definition pair_row (a : string) (l : list string) : list (string * string) :=
  flat_map (fun y =>
    let b := PyStr.strip y in
    if PyStr.truthy a && PyStr.truthy b then [(a, b)] else []) l.

(** Neighbourhood is mutual: what [add_edges_from] builds and what
    [remove_nodes_from] keeps. *)
Definition symmetric (G : graph) : Prop :=
  forall a b, adjacent G a b -> adjacent G b a.

(** The unordered pair an edge stands for. *)
Definition endpoints (e : string * string) : gset string := {[e.1; e.2]}.

(** What one listing of an investor does to its entry. *)
Definition bump (m : float) (d : string) (st : investor_stats) : investor_stats :=
  append_transaction d (add_money m (add_round st)).

Definition fresh_stats : investor_stats := Stats 0 0%float [].

(** The entry of [x], followed through one investor of a row. *)
Definition entry_step (m : float) (d : string) (x : string)
    (o : option investor_stats) (inv : string) : option investor_stats :=
  if decide (inv = x) then Some (bump m d (default fresh_stats o)) else o.

Definition entry_rounds (o : option investor_stats) : nat :=
  match o with Some st => rounds st | None => 0 end.

(** The entry of [x], followed through one row. *)
Definition entry_row (float_of_str : string -> option float) (x : string)
    (o : option investor_stats) (r : row) : option investor_stats :=
  if PyStr.truthy (investor_names r)
  then fold_left (entry_step (money_of float_of_str (money_raised r))
                             (transaction_detail r) x)
                 (row_investors r) o
  else o.

(** The listings of [x] in one row: the row's money and transaction detail,
    once for every time the row lists [x]. *)
Definition row_listings (float_of_str : string -> option float) (x : string)
    (r : row) : list (float * string) :=
  if PyStr.truthy (investor_names r)
  then replicate (occurrences x (row_investors r))
                 (money_of float_of_str (money_raised r), transaction_detail r)
  else [].

Definition listings (float_of_str : string -> option float) (x : string)
    (df : list row) : list (float * string) :=
  flat_map (row_listings float_of_str x) df.

(** The entry that a sequence of listings leaves. *)
Definition entry_of (L : list (float * string)) : option investor_stats :=
  match L with
  | [] => None
  | _ => Some (Stats (length L) (fold_left PrimFloat.add L.*1 0%float) L.*2)
  end.

(** The graph at the end of the two filters. *)
Definition pruned_graph (float_of_str : string -> option float)
    (df_filtered : list row) (min_degree min_rounds : Z) : graph :=
  filter_rounds (filter_degree (build_graph df_filtered) min_degree)
                (aggregate float_of_str df_filtered) min_rounds.

(** The figure returned when no node is left. *)
Definition no_investors_figure : figure :=
  Figure (Some (TitleText no_investors_title)) None.

(** * Example data *)

(** A row of year 2020 with no money value and the given [Investor Names]. *)
Definition row_of (names : string) : row :=
  Row (Some "T") (Some "O") (Some "S") (Some 2020%Z) CellNone names.

(** Two rounds that make the path A - B - C. *)
Definition path_rows : list row := [row_of "A,B"; row_of "B, C"].

Definition path_graph : graph :=
  <["A" := {["B"]}]> (<["B" := {["A"; "C"]}]> (<["C" := {["B"]}]> ∅)).

(** A round that lists the same investor twice. *)
Definition repeated_row : row := row_of "A, A".

(** A round whose investor field has an empty segment. *)
Definition empty_segment_row : row := row_of "A,,B".

(** A row of investor X with the given money cell. *)
Definition money_row (val : cell) : row :=
  Row (Some "T") (Some "O") (Some "S") (Some 2020%Z) val "X".

(** Rows with the raised amounts [100, "n/a", "", None, "50"]. *)
Definition money_rows : list row :=
  [money_row (CellInt 100); money_row (CellStr "n/a");
   money_row (CellStr EmptyString); money_row CellNone;
   money_row (CellStr "50")].

(** * Proof automation *)

Ltac split_decide :=
  repeat match goal with
         | |- context [decide ?P] =>
             destruct (decide P); subst; simpl; try tauto; try congruence
         end.

(** * Strings *)

Lemma truthy_spec s : PyStr.truthy s = true <-> s <> EmptyString.
Proof. destruct s; simpl; split; congruence. Qed.

Lemma lstrip_head s c r :
  PyStr.lstrip s = String c r -> PyStr.isspace c = false.
Proof.
  induction s as [|a s IH]; simpl; [discriminate|].
  destruct (PyStr.isspace a) eqn:Ha; [exact IH|].
  intros [= <- _]. exact Ha.
Qed.

Lemma lstrip_fixed c r :
  PyStr.isspace c = false -> PyStr.lstrip (String c r) = String c r.
Proof. intros H. simpl. now rewrite H. Qed.

Lemma rstrip_cons c r :
  PyStr.isspace c = false -> PyStr.rstrip (String c r) = String c (PyStr.rstrip r).
Proof. intros H. simpl. destruct (PyStr.rstrip r); [now rewrite H|reflexivity]. Qed.

Lemma rstrip_cons_some a r b t :
  PyStr.rstrip r = String b t -> PyStr.rstrip (String a r) = String a (String b t).
Proof. intros H. simpl. now rewrite H. Qed.

Lemma rstrip_idemp s : PyStr.rstrip (PyStr.rstrip s) = PyStr.rstrip s.
Proof.
  induction s as [|a s IH]; [reflexivity|].
  cbn [PyStr.rstrip]. destruct (PyStr.rstrip s) as [|b t] eqn:E.
  - destruct (PyStr.isspace a) eqn:Ha; [reflexivity|].
    cbn. now rewrite Ha.
  - now apply rstrip_cons_some.
Qed.

Lemma strip_head s c r :
  PyStr.strip s = String c r -> PyStr.isspace c = false.
Proof.
  unfold PyStr.strip. destruct (PyStr.lstrip s) as [|a t] eqn:E; [discriminate|].
  pose proof (lstrip_head _ _ _ E) as Ha.
  rewrite (rstrip_cons _ _ Ha). intros [= <- _]. exact Ha.
Qed.

(** Trimming twice is trimming once: the pair generator trims names that the
    caller has already trimmed. *)
Lemma strip_idemp s : PyStr.strip (PyStr.strip s) = PyStr.strip s.
Proof.
  destruct (PyStr.strip s) as [|c r] eqn:E; [reflexivity|].
  pose proof (strip_head _ _ _ E) as Hc.
  unfold PyStr.strip. rewrite (lstrip_fixed _ _ Hc), <- E.
  unfold PyStr.strip. apply rstrip_idemp.
Qed.

Lemma append_cons c p b : String c p +:+ b = String c (p +:+ b).
Proof. reflexivity. Qed.

Lemma prefix_spec p s :
  String.prefix p s = true <-> exists b, s = p +:+ b.
Proof.
  revert s. induction p as [|a p IH]; intros s.
  - destruct s; simpl; split; eauto.
  - destruct s as [|c s]; simpl.
    + split; [discriminate|]. intros [b Hb]. discriminate.
    + destruct (ascii_dec a c) as [->|Hne].
      * rewrite IH. split; intros [b Hb]; exists b.
        -- now rewrite append_cons, Hb.
        -- rewrite append_cons in Hb. congruence.
      * split; [discriminate|]. intros [b Hb].
        rewrite append_cons in Hb. congruence.
Qed.

(** [contains pat s] holds exactly when [pat] occurs in [s]. *)
Lemma contains_spec p s :
  PyStr.contains p s = true <-> exists a b, s = a +:+ p +:+ b.
Proof.
  induction s as [|c s IH].
  - cbn [PyStr.contains]. rewrite orb_false_r, prefix_spec. split.
    + intros [b Hb]. exists EmptyString, b. exact Hb.
    + intros [a [b Hab]]. destruct a; [eauto|discriminate].
  - cbn [PyStr.contains]. rewrite orb_true_iff, prefix_spec, IH. split.
    + intros [[b Hb]|[a [b Hab]]].
      * exists EmptyString, b. exact Hb.
      * exists (String c a), b. now rewrite append_cons, Hab.
    + intros [a [b Hab]]. destruct a as [|a0 a].
      * left. eauto.
      * right. exists a, b. rewrite append_cons in Hab. congruence.
Qed.

(** * The pair generator *)

Section Pairs.

Implicit Types (investors l : list string) (a b x : string).

Lemma flat_map_seq_shift {B} (f : nat -> list B) s n :
  flat_map f (seq (S s) n) = flat_map (fun i => f (S i)) (seq s n).
Proof.
  revert s. induction n as [|n IH]; intros s; [reflexivity|].
  cbn [seq flat_map]. now rewrite IH.
Qed.

Lemma flat_map_nth_seq {B} (g : string -> list B) l :
  flat_map (fun j => g (nth j l EmptyString)) (seq 0 (length l)) = flat_map g l.
Proof.
  induction l as [|x l IH]; [reflexivity|].
  cbn [length seq flat_map nth]. rewrite flat_map_seq_shift.
  cbn [nth]. now rewrite IH.
Qed.

(** The two index loops, unrolled along the list. *)
Lemma create_co_investment_pairs_cons x l :
  create_co_investment_pairs (x :: l)
  = pair_row (PyStr.strip x) l ++ create_co_investment_pairs l.
Proof.
  unfold create_co_investment_pairs. cbn [length seq flat_map]. f_equal.
  - cbn [Nat.add Nat.sub nth]. rewrite Nat.sub_0_r, flat_map_seq_shift.
    cbn [nth]. apply (flat_map_nth_seq
      (fun y => if PyStr.truthy (PyStr.strip x) && PyStr.truthy (PyStr.strip y)
                then [(PyStr.strip x, PyStr.strip y)] else [])).
  - rewrite flat_map_seq_shift. apply flat_map_ext. intros i.
    cbn [Nat.add Nat.sub nth]. rewrite flat_map_seq_shift.
    apply flat_map_ext. intros j. reflexivity.
Qed.

Lemma pair_row_cons a y l :
  pair_row a (y :: l)
  = (if PyStr.truthy a && PyStr.truthy (PyStr.strip y)
     then [(a, PyStr.strip y)] else []) ++ pair_row a l.
Proof. reflexivity. Qed.

Lemma pair_row_empty l : pair_row EmptyString l = [].
Proof. induction l as [|y l IH]; [reflexivity|]. exact IH. Qed.

Lemma pair_row_nonempty a l :
  PyStr.truthy a = true -> pair_row a l = map (pair a) (nonempty_names l).
Proof.
  intros Ha. induction l as [|y l IH]; [reflexivity|].
  rewrite pair_row_cons, IH, Ha. unfold nonempty_names.
  cbn [andb map List.filter].
  now destruct (PyStr.truthy (PyStr.strip y)).
Qed.

(** The generator returns the combinations of the names that are not empty
    after trimming, in list order. *)
Lemma create_co_investment_pairs_combinations investors :
  create_co_investment_pairs investors = combinations (nonempty_names investors).
Proof.
  induction investors as [|x l IH]; [reflexivity|].
  rewrite create_co_investment_pairs_cons, IH.
  unfold nonempty_names at 2. cbn [map List.filter].
  destruct (PyStr.truthy (PyStr.strip x)) eqn:Hx.
  - cbn [combinations]. now rewrite (pair_row_nonempty _ _ Hx).
  - destruct (PyStr.strip x); [|discriminate]. now rewrite pair_row_empty.
Qed.

Lemma triangle_succ k : S k * (S k - 1) / 2 = k + k * (k - 1) / 2.
Proof.
  replace (S k * (S k - 1)) with (k * 2 + k * (k - 1)).
  - rewrite Nat.div_add_l by discriminate. reflexivity.
  - destruct k; cbn [Nat.sub]; nia.
Qed.

Lemma combinations_length l :
  length (combinations l) = length l * (length l - 1) / 2.
Proof.
  induction l as [|x l IH]; [reflexivity|].
  cbn [combinations length]. rewrite length_app, length_map, IH.
  symmetry. apply triangle_succ.
Qed.

Lemma combinations_lookup l a b :
  (a, b) ∈ combinations l <->
  exists i j, i < j /\ l !! i = Some a /\ l !! j = Some b.
Proof.
  induction l as [|x l IH].
  - split; [intros H; inversion H|]. intros (i & j & _ & Hi & _). discriminate.
  - cbn [combinations]. rewrite elem_of_app, list_elem_of_fmap, IH. split.
    + intros [(y & [= -> ->] & Hy)|(i & j & Hij & Hi & Hj)].
      * apply list_elem_of_lookup in Hy as [j Hj].
        exists 0, (S j). split; [lia|]. split; [reflexivity|exact Hj].
      * exists (S i), (S j). split; [lia|]. split; assumption.
    + intros (i & j & Hij & Hi & Hj). destruct j as [|j]; [lia|].
      destruct i as [|i].
      * left. exists b. injection Hi as ->. split; [reflexivity|].
        apply list_elem_of_lookup. eauto.
      * right. exists i, j. split; [lia|]. split; assumption.
Qed.

(** A name that comes out of the generator is listed in its input, trimmed. *)
Lemma nonempty_names_elem investors a :
  a ∈ nonempty_names investors
  <-> a <> EmptyString /\ exists x, x ∈ investors /\ a = PyStr.strip x.
Proof.
  unfold nonempty_names.
  rewrite list_elem_of_In, filter_In, <- list_elem_of_In, list_elem_of_fmap, truthy_spec.
  split.
  - intros [(x & -> & Hx) Hne]. eauto.
  - intros [Hne (x & Hx & ->)]. eauto.
Qed.

Lemma pairs_elem investors a b :
  (a, b) ∈ create_co_investment_pairs investors ->
  a ∈ nonempty_names investors /\ b ∈ nonempty_names investors.
Proof.
  rewrite create_co_investment_pairs_combinations, combinations_lookup.
  intros (i & j & _ & Hi & Hj). split; apply list_elem_of_lookup; eauto.
Qed.

(** The investors of a row are trimmed already, so trimming them again in the
    generator keeps them. *)
Lemma nonempty_names_row r :
  nonempty_names (row_investors r) = List.filter PyStr.truthy (row_investors r).
Proof.
  unfold nonempty_names, row_investors. f_equal.
  rewrite map_map. apply map_ext. intros s. apply strip_idemp.
Qed.

End Pairs.

(** * The graph *)

Section Graph.

Implicit Types (G : graph) (u v n a b : string) (e : string * string).

Lemma add_node_if_absent_lookup n G m :
  add_node_if_absent n G !! m
  = if decide (n = m) then Some (default ∅ (G !! n)) else G !! m.
Proof.
  unfold add_node_if_absent. destruct (G !! n) as [s|] eqn:E.
  - case_decide; [subst; now rewrite E|reflexivity].
  - rewrite lookup_insert. now case_decide.
Qed.

(** The neighbours of every node after one edge is added. *)
Lemma add_edge_lookup G u v n :
  add_edge G (u, v) !! n
  = if decide (n = u \/ n = v)
    then Some ((if decide (n = u) then {[v]} else ∅)
               ∪ (if decide (n = v) then {[u]} else ∅)
               ∪ default ∅ (G !! n))
    else G !! n.
Proof.
  unfold add_edge. rewrite !lookup_alter, !add_node_if_absent_lookup.
  split_decide; rewrite ?add_node_if_absent_lookup; split_decide;
    f_equal; set_solver.
Qed.

Lemma adjacent_add_edge G u v a b :
  adjacent (add_edge G (u, v)) a b
  <-> adjacent G a b \/ (a = u /\ b = v) \/ (a = v /\ b = u).
Proof.
  unfold adjacent. rewrite add_edge_lookup. split.
  - intros (nbrs & Hn & Hb). case_decide as Huv; [|eauto].
    injection Hn as <-. destruct (G !! a) as [s|]; simpl in Hb;
      revert Hb; split_decide; set_solver.
  - intros [(nbrs & Hn & Hb)|H].
    + rewrite Hn. destruct (decide (a = u \/ a = v));
        eexists; (split; [reflexivity|]); simpl; set_solver.
    + rewrite decide_True by tauto. eexists. split; [reflexivity|].
      destruct H as [[-> ->]|[-> ->]]; split_decide; set_solver.
Qed.

Lemma dom_add_edge G u v : dom (add_edge G (u, v)) = {[u; v]} ∪ dom G.
Proof.
  apply set_eq. intros n. rewrite elem_of_union, !elem_of_dom, add_edge_lookup.
  case_decide as H.
  - split; [intros _; left; set_solver|eauto].
  - split; [eauto|]. intros [Hn|Hn]; [set_solver|exact Hn].
Qed.

Lemma adjacent_add_edges_from es G a b :
  adjacent (add_edges_from G es) a b
  <-> adjacent G a b \/ (a, b) ∈ es \/ (b, a) ∈ es.
Proof.
  unfold add_edges_from. revert G.
  induction es as [|[u v] es IH]; intros G; cbn [fold_left].
  - split; [auto|]. intros [H|[H|H]]; [exact H|inversion H..].
  - rewrite IH, adjacent_add_edge, !elem_of_cons. split.
    + intros [[H|[[-> ->]|[-> ->]]]|[H|H]]; auto.
    + intros [H|[[[= -> ->]|H]|[[= -> ->]|H]]]; auto.
Qed.

Lemma dom_add_edges_from es G n :
  n ∈ dom (add_edges_from G es)
  <-> n ∈ dom G \/ exists m, (n, m) ∈ es \/ (m, n) ∈ es.
Proof.
  unfold add_edges_from. revert G.
  induction es as [|[u v] es IH]; intros G; cbn [fold_left].
  - split; [auto|]. intros [H|[m [H|H]]]; [exact H|inversion H..].
  - rewrite IH, dom_add_edge. split.
    + intros [H|[m [H|H]]].
      * apply elem_of_union in H as [H|H]; [|auto].
        right. apply elem_of_union in H as [Hn|Hn];
          apply elem_of_singleton in Hn; subst n.
        -- exists v. left. left.
        -- exists u. right. left.
      * right. exists m. left. now right.
      * right. exists m. right. now right.
    + intros [H|[m [H|H]]].
      * left. set_solver.
      * apply elem_of_cons in H as [[= -> ->]|H]; [left; set_solver|eauto].
      * apply elem_of_cons in H as [[= -> ->]|H]; [left; set_solver|eauto].
Qed.

Lemma elem_of_nodes G n : n ∈ nodes G <-> n ∈ dom G.
Proof.
  unfold nodes. rewrite elem_of_dom, list_elem_of_fmap. split.
  - intros ([k s] & -> & H). apply elem_of_map_to_list in H. eauto.
  - intros [s H]. exists (n, s). split; [reflexivity|].
    now apply elem_of_map_to_list.
Qed.

Lemma NoDup_nodes G : NoDup (nodes G).
Proof. apply NoDup_fst_map_to_list. Qed.

End Graph.

(** * Removing nodes *)

Section Removal.

Implicit Types (G : graph) (n m a b : string) (ns : list string).

Lemma foldr_discard_lookup n G (l : list string) m :
  foldr (fun u G' => alter (fun s => s ∖ {[n]}) u G') G l !! m
  = if decide (m ∈ l) then (fun s => s ∖ {[n]}) <$> G !! m else G !! m.
Proof.
  induction l as [|u l IH]; cbn [foldr].
  - rewrite decide_False; [reflexivity|]. intros H. inversion H.
  - rewrite lookup_alter. destruct (decide (u = m)) as [->|Hne]; rewrite IH.
    + destruct (decide (m ∈ m :: l)) as [_|Hn];
        [|exfalso; apply Hn, elem_of_cons; now left].
      destruct (decide (m ∈ l)); [|reflexivity].
      destruct (G !! m) as [s|]; [|reflexivity]. simpl. f_equal. set_solver.
    + destruct (decide (m ∈ l)) as [Hin|Hin].
      * destruct (decide (m ∈ u :: l)) as [_|Hn]; [reflexivity|].
        exfalso. apply Hn, elem_of_cons. now right.
      * destruct (decide (m ∈ u :: l)) as [Hn|_]; [|reflexivity].
        apply elem_of_cons in Hn as [?|?]; congruence.
Qed.

Lemma remove_node_lookup G n m :
  remove_node G n !! m
  = match G !! n with
    | None => G !! m
    | Some nbrs =>
        if decide (n = m) then None
        else if decide (m ∈ nbrs) then (fun s => s ∖ {[n]}) <$> G !! m
             else G !! m
    end.
Proof.
  unfold remove_node. destruct (G !! n) as [nbrs|]; [|reflexivity].
  rewrite lookup_delete. destruct (decide (n = m)); [reflexivity|].
  rewrite foldr_discard_lookup.
  destruct (decide (m ∈ elements nbrs)) as [H|H]; rewrite elem_of_elements in H.
  - now rewrite decide_True.
  - now rewrite decide_False.
Qed.

Lemma dom_remove_node G n : dom (remove_node G n) = dom G ∖ {[n]}.
Proof.
  apply set_eq. intros m.
  rewrite elem_of_difference, elem_of_singleton, !elem_of_dom, remove_node_lookup.
  destruct (G !! n) as [nbrs|] eqn:E.
  - destruct (decide (n = m)) as [->|Hne].
    + split; [intros [? ?]; discriminate|tauto].
    + destruct (decide (m ∈ nbrs)); rewrite ?fmap_is_Some;
        split; try tauto; intros ?; split; congruence.
  - split; [|tauto]. intros H. split; [exact H|].
    intros ->. rewrite E in H. now destruct H.
Qed.

Lemma dom_remove_nodes_from ns G :
  dom (remove_nodes_from G ns) = dom G ∖ list_to_set ns.
Proof.
  unfold remove_nodes_from. revert G.
  induction ns as [|n ns IH]; intros G; cbn [fold_left list_to_set].
  - set_solver.
  - rewrite IH, dom_remove_node. set_solver.
Qed.

(** In a symmetric graph, removing [n] deletes its entry and discards it
    from every neighbour set, whether or not [n] was a node. *)
Lemma remove_node_lookup_symmetric G n m :
  symmetric G ->
  remove_node G n !! m
  = if decide (n = m) then None else (fun s => s ∖ {[n]}) <$> G !! m.
Proof.
  intros Hsym. rewrite remove_node_lookup.
  destruct (G !! n) as [nbrs|] eqn:En.
  - destruct (decide (n = m)); [reflexivity|].
    destruct (decide (m ∈ nbrs)) as [Hin|Hin]; [reflexivity|].
    destruct (G !! m) as [s|] eqn:Em; [|reflexivity]. simpl. f_equal.
    assert (n ∉ s); [|set_solver].
    intros Hn. apply Hin.
    destruct (Hsym m n) as (s' & Hs' & Hm); [now exists s|congruence].
  - destruct (decide (n = m)) as [->|Hne]; [exact En|].
    destruct (G !! m) as [s|] eqn:Em; [|reflexivity]. simpl. f_equal.
    assert (n ∉ s); [|set_solver].
    intros Hn. destruct (Hsym m n) as (s' & Hs' & _); [now exists s|congruence].
Qed.

Lemma adjacent_remove_node G n a b :
  symmetric G ->
  adjacent (remove_node G n) a b <-> adjacent G a b /\ a <> n /\ b <> n.
Proof.
  intros Hsym. unfold adjacent. rewrite (remove_node_lookup_symmetric _ _ _ Hsym).
  destruct (decide (n = a)) as [->|Hne].
  - split; [intros (? & ? & _); discriminate|tauto].
  - destruct (G !! a) as [s|]; simpl.
    + split.
      * intros (nbrs & [= <-] & Hb). split; [exists s; set_solver|set_solver].
      * intros [(nbrs & [= <-] & Hb) [_ Hbn]]. eexists. split; [reflexivity|set_solver].
    + split; [intros (? & ? & _); discriminate|].
      intros [(? & ? & _) _]; discriminate.
Qed.

Lemma symmetric_remove_node G n : symmetric G -> symmetric (remove_node G n).
Proof.
  intros Hsym a b. rewrite !(adjacent_remove_node _ _ _ _ Hsym).
  intros (H & ? & ?). auto.
Qed.

Lemma adjacent_remove_nodes_from ns G a b :
  symmetric G ->
  adjacent (remove_nodes_from G ns) a b
  <-> adjacent G a b /\ (a ∉ ns) /\ (b ∉ ns).
Proof.
  unfold remove_nodes_from. revert G.
  induction ns as [|n ns IH]; intros G Hsym; cbn [fold_left].
  - split; [|tauto]. intros H. split; [exact H|]. split; intros Hin; inversion Hin.
  - rewrite (IH _ (symmetric_remove_node _ n Hsym)),
      (adjacent_remove_node _ _ _ _ Hsym), !not_elem_of_cons. tauto.
Qed.

(** The graph left by [remove_nodes_from], in closed form: it does not depend
    on the order in which the nodes are removed. *)
Lemma remove_nodes_from_lookup ns G m :
  symmetric G ->
  remove_nodes_from G ns !! m
  = if decide (m ∈ ns) then None
    else (fun s => s ∖ list_to_set ns) <$> G !! m.
Proof.
  unfold remove_nodes_from. revert G.
  induction ns as [|n ns IH]; intros G Hsym; cbn [fold_left list_to_set].
  - destruct (decide (m ∈ [])) as [H|_]; [inversion H|].
    destruct (G !! m) as [s|]; [|reflexivity]. simpl. f_equal. set_solver.
  - rewrite (IH _ (symmetric_remove_node _ n Hsym)),
      (remove_node_lookup_symmetric _ _ _ Hsym).
    destruct (decide (m ∈ ns)) as [Hin|Hin].
    + destruct (decide (m ∈ n :: ns)) as [_|Hn]; [reflexivity|].
      exfalso. apply Hn, elem_of_cons. now right.
    + destruct (decide (n = m)) as [->|Hne].
      * destruct (decide (m ∈ m :: ns)) as [_|Hn]; [reflexivity|].
        exfalso. apply Hn, elem_of_cons. now left.
      * destruct (decide (m ∈ n :: ns)) as [Hn|_].
        -- apply elem_of_cons in Hn as [?|?]; congruence.
        -- destruct (G !! m) as [s|]; [|reflexivity]. simpl. f_equal. set_solver.
Qed.

Lemma remove_nodes_from_Permutation ns ns' G :
  symmetric G -> ns ≡ₚ ns' -> remove_nodes_from G ns = remove_nodes_from G ns'.
Proof.
  intros Hsym Hp. apply map_eq. intros m.
  rewrite !(remove_nodes_from_lookup _ _ _ Hsym).
  assert (Hset : (list_to_set ns : gset string) = list_to_set ns')
    by (apply set_eq; intros x; now rewrite !elem_of_list_to_set, Hp).
  rewrite Hset.
  destruct (decide (m ∈ ns)) as [H|H], (decide (m ∈ ns')) as [H'|H'];
    try reflexivity; rewrite Hp in H; contradiction.
Qed.

Lemma symmetric_remove_nodes_from ns G :
  symmetric G -> symmetric (remove_nodes_from G ns).
Proof.
  intros Hsym a b. rewrite !(adjacent_remove_nodes_from _ _ _ _ Hsym).
  intros (H & ? & ?). auto.
Qed.

Lemma symmetric_add_edges_from es : symmetric (add_edges_from ∅ es).
Proof.
  intros a b. rewrite !adjacent_add_edges_from.
  intros [(s & Hs & _)|[H|H]]; [now rewrite lookup_empty in Hs|auto..].
Qed.

End Removal.

(** * The edge list *)

Section Edges.

Implicit Types (G : graph) (u v n : string) (seen : gset string)
               (adj : list (string * gset string)).

Lemma same_unordered_endpoints e1 e2 :
  same_unordered e1 e2 -> endpoints e1 = endpoints e2.
Proof.
  unfold endpoints. intros [->| ->]; [reflexivity|]. simpl. set_solver.
Qed.

Lemma endpoints_inj n : Inj (=) (=) (fun v => endpoints (n, v)).
Proof.
  intros v v' H. unfold endpoints in H. simpl in H.
  assert (Hv : v ∈ ({[n; v']} : gset string)) by (rewrite <- H; set_solver).
  assert (Hv' : v' ∈ ({[n; v]} : gset string)) by (rewrite H; set_solver).
  set_solver.
Qed.

Lemma edges_from_elem seen adj u v :
  (u, v) ∈ edges_from seen adj ->
  (v ∉ seen) /\ exists nbrs, (u, nbrs) ∈ adj /\ v ∈ nbrs.
Proof.
  revert seen. induction adj as [|[n nbrs] rest IH]; intros seen; cbn [edges_from].
  - intros H. inversion H.
  - rewrite elem_of_app, list_elem_of_fmap. intros [(w & [= -> ->] & Hw)|H].
    + apply list_elem_of_filter in Hw as [Hseen Hw]. apply elem_of_elements in Hw.
      split; [exact Hseen|]. exists nbrs. split; [left|exact Hw].
    + apply IH in H as (Hseen & s & Hs & Hv).
      split; [set_solver|]. exists s. split; [now right|exact Hv].
Qed.

(** No two entries of the edge list stand for the same unordered pair. *)
Lemma edges_from_NoDup seen adj :
  NoDup adj.*1 -> NoDup (endpoints <$> edges_from seen adj).
Proof.
  revert seen. induction adj as [|[n nbrs] rest IH]; intros seen Hnd;
    cbn [edges_from]; [constructor|].
  cbn [fmap list_fmap fst] in Hnd. apply NoDup_cons in Hnd as [Hn Hrest].
  rewrite fmap_app. apply NoDup_app. split; [|split].
  - rewrite <- list_fmap_compose.
    apply (@NoDup_fmap_2 _ _ (fun v => endpoints (n, v)) (endpoints_inj n)).
    apply NoDup_filter, NoDup_elements.
  - intros s Hs Hs'.
    apply list_elem_of_fmap in Hs as (e & -> & He).
    apply list_elem_of_fmap in He as (w & -> & _).
    apply list_elem_of_fmap in Hs' as ([u v] & Heq & Huv).
    apply edges_from_elem in Huv as (Hv & s & Hs & _).
    assert (Hu : u <> n).
    { intros ->. apply Hn. apply list_elem_of_fmap. now exists (n, s). }
    unfold endpoints in Heq. simpl in Heq.
    assert (n ∈ ({[u; v]} : gset string)) by (rewrite <- Heq; set_solver).
    set_solver.
  - apply IH, Hrest.
Qed.

Lemma edges_from_complete seen adj u v nu nv :
  NoDup adj.*1 -> (forall k, k ∈ adj.*1 -> k ∉ seen) ->
  (u, nu) ∈ adj -> (v, nv) ∈ adj -> v ∈ nu -> u ∈ nv ->
  (u, v) ∈ edges_from seen adj \/ (v, u) ∈ edges_from seen adj.
Proof.
  revert seen. induction adj as [|[n nbrs] rest IH]; intros seen Hnd Hseen Hu Hv Hvu Huv.
  - inversion Hu.
  - cbn [fmap list_fmap fst] in Hnd. apply NoDup_cons in Hnd as [Hn Hrest].
    cbn [edges_from]. rewrite !elem_of_app, !list_elem_of_fmap.
    apply elem_of_cons in Hu as [[= -> ->]|Hu].
    + left. left. exists v. split; [reflexivity|].
      apply list_elem_of_filter. split; [|now apply elem_of_elements].
      apply Hseen, list_elem_of_fmap. now exists (v, nv).
    + apply elem_of_cons in Hv as [[= -> ->]|Hv].
      * right. left. exists u. split; [reflexivity|].
        apply list_elem_of_filter. split; [|now apply elem_of_elements].
        apply Hseen. right. apply list_elem_of_fmap. now exists (u, nu).
      * destruct (IH ({[n]} ∪ seen)) as [H|H]; auto.
        intros k Hk. apply not_elem_of_union. split.
        -- intros ->%elem_of_singleton. contradiction.
        -- apply Hseen. now right.
Qed.

Lemma elem_of_edges_adjacent G u v : (u, v) ∈ edges G -> adjacent G u v.
Proof.
  intros H. apply edges_from_elem in H as (_ & s & Hs & Hv).
  apply elem_of_map_to_list in Hs. now exists s.
Qed.

(** Every pair of neighbours is listed, in one direction or the other. *)
Lemma adjacent_elem_of_edges G u v :
  symmetric G -> adjacent G u v -> (u, v) ∈ edges G \/ (v, u) ∈ edges G.
Proof.
  intros Hsym Huv. destruct (Hsym _ _ Huv) as (nv & Hnv & Hu).
  destruct Huv as (nu & Hnu & Hv).
  apply (edges_from_complete ∅ _ u v nu nv); auto.
  - apply NoDup_fst_map_to_list.
  - intros k _. apply not_elem_of_empty.
  - now apply elem_of_map_to_list.
  - now apply elem_of_map_to_list.
Qed.

Lemma edges_distinct G i j e1 e2 :
  i <> j -> edges G !! i = Some e1 -> edges G !! j = Some e2 ->
  ~ same_unordered e1 e2.
Proof.
  intros Hij H1 H2 Hsame. apply Hij.
  apply (NoDup_lookup (endpoints <$> edges G) i j (endpoints e1)).
  - apply edges_from_NoDup, NoDup_fst_map_to_list.
  - now rewrite list_lookup_fmap, H1.
  - rewrite list_lookup_fmap, H2. simpl. f_equal. symmetry.
    now apply same_unordered_endpoints.
Qed.

End Edges.

(** * Aggregation *)

Lemma occurrences_cons x y l :
  occurrences x (y :: l) = (if decide (y = x) then 1 else 0) + occurrences x l.
Proof.
  unfold occurrences. cbn [List.filter].
  destruct (decide (y = x)) as [->|Hne].
  - now rewrite bool_decide_eq_true_2.
  - now rewrite bool_decide_eq_false_2.
Qed.

Lemma occurrences_pos x l : x ∈ l <-> 1 <= occurrences x l.
Proof.
  induction l as [|y l IH].
  - split; [intros H; inversion H|]. cbn. lia.
  - rewrite occurrences_cons, elem_of_cons, IH.
    destruct (decide (y = x)); split; try lia; intuition (auto; congruence).
Qed.

Lemma update_info_lookup m d info inv x :
  update_info m d info inv !! x = entry_step m d x (info !! x) inv.
Proof.
  unfold update_info, entry_step.
  destruct (decide (inv = x)) as [->|Hne].
  - rewrite !lookup_alter_eq. destruct (info !! x) as [st|] eqn:E.
    + now rewrite E.
    + now rewrite lookup_insert_eq.
  - rewrite !lookup_alter_ne by assumption.
    destruct (info !! inv); [reflexivity|]. now rewrite lookup_insert_ne.
Qed.

Lemma fold_update_info_lookup m d investors info x :
  fold_left (update_info m d) investors info !! x
  = fold_left (entry_step m d x) investors (info !! x).
Proof.
  revert info. induction investors as [|inv l IH]; intros info; [reflexivity|].
  cbn [fold_left]. now rewrite IH, update_info_lookup.
Qed.

Lemma entry_rounds_fold m d x investors o :
  entry_rounds (fold_left (entry_step m d x) investors o)
  = entry_rounds o + occurrences x investors.
Proof.
  revert o. induction investors as [|inv l IH]; intros o; cbn [fold_left].
  - unfold occurrences. cbn. lia.
  - rewrite IH, occurrences_cons. unfold entry_step.
    destruct (decide (inv = x)); [|lia].
    destruct o as [st|]; cbn; lia.
Qed.

Lemma rounds_or_entry info x : rounds_or 0 info x = entry_rounds (info !! x).
Proof. reflexivity. Qed.

Lemma row_investors_empty r :
  investor_names r = EmptyString -> row_investors r = [EmptyString].
Proof. unfold row_investors. now intros ->. Qed.

Section Aggregation.

Variable float_of_str : string -> option float.

Lemma aggregate_row_lookup info r x :
  aggregate_row float_of_str info r !! x = entry_row float_of_str x (info !! x) r.
Proof.
  unfold aggregate_row, entry_row.
  destruct (PyStr.truthy (investor_names r)); [|reflexivity].
  apply fold_update_info_lookup.
Qed.

(** The entry of a name depends on the rows through that name only. *)
Lemma aggregate_lookup df x :
  aggregate float_of_str df !! x = fold_left (entry_row float_of_str x) df None.
Proof.
  unfold aggregate.
  change (@None investor_stats) with ((∅ : gmap string investor_stats) !! x).
  generalize (∅ : gmap string investor_stats).
  induction df as [|r df IH]; intros info; [reflexivity|].
  cbn [fold_left]. now rewrite IH, aggregate_row_lookup.
Qed.

Lemma entry_rounds_row x o r :
  entry_rounds (entry_row float_of_str x o r)
  = entry_rounds o
    + (if PyStr.truthy (investor_names r)
       then occurrences x (row_investors r) else 0).
Proof.
  unfold entry_row. destruct (PyStr.truthy (investor_names r)); [|lia].
  apply entry_rounds_fold.
Qed.

Lemma entry_rounds_rows x df o :
  entry_rounds (fold_left (entry_row float_of_str x) df o)
  = entry_rounds o
    + sum_list_with (fun r => if PyStr.truthy (investor_names r)
                              then occurrences x (row_investors r) else 0) df.
Proof.
  revert o. induction df as [|r df IH]; intros o; simpl.
  - lia.
  - rewrite IH, entry_rounds_row. lia.
Qed.

(** [rounds] counts listings: a row that lists a name twice counts twice. *)
Lemma rounds_listed_count df x :
  x <> EmptyString ->
  rounds_or 0 (aggregate float_of_str df) x = listed_count x df.
Proof.
  intros Hx. rewrite rounds_or_entry, aggregate_lookup, entry_rounds_rows.
  cbn [entry_rounds]. unfold listed_count. rewrite Nat.add_0_l.
  induction df as [|r df IH]; [reflexivity|]. simpl. rewrite IH. f_equal.
  destruct (investor_names r) as [|c s] eqn:E; [|reflexivity].
  cbn [PyStr.truthy]. rewrite (row_investors_empty _ E), occurrences_cons.
  destruct (decide (EmptyString = x)); [congruence|reflexivity].
Qed.

Lemma rounds_ge_listing df r x :
  r ∈ df -> PyStr.truthy (investor_names r) = true -> x ∈ row_investors r ->
  1 <= rounds_or 0 (aggregate float_of_str df) x.
Proof.
  intros Hr Ht Hx. rewrite rounds_or_entry, aggregate_lookup, entry_rounds_rows.
  cbn [entry_rounds]. apply occurrences_pos in Hx.
  pose proof (sum_list_with_in r
    (fun r => if PyStr.truthy (investor_names r)
              then occurrences x (row_investors r) else 0) df Hr) as Hle.
  cbv beta in Hle. rewrite Ht in Hle. lia.
Qed.

End Aggregation.

(** * The hover transaction log *)

Section Hover.

Implicit Types (l keys txs : list string) (x y : string).

Lemma fromkeys_fold l keys :
  fold_left (fun keys x => if decide (x ∈ keys) then keys else keys ++ [x]) l keys
  = keys ++ filter (fun y => y ∉ keys) (first_seen l).
Proof.
  revert keys. induction l as [|x l IH]; intros keys; cbn [fold_left first_seen].
  - now rewrite filter_nil, app_nil_r.
  - rewrite IH. destruct (decide (x ∈ keys)) as [Hin|Hin].
    + rewrite filter_cons_False by tauto. f_equal.
      rewrite list_filter_filter_l; [reflexivity|]. intros y Hy ->. tauto.
    + rewrite filter_cons_True by assumption.
      rewrite <- app_assoc. cbn [app]. do 2 f_equal.
      rewrite list_filter_filter. apply list_filter_iff. intros y.
      rewrite not_elem_of_app, list_elem_of_singleton. tauto.
Qed.

(** [dict.fromkeys] keeps the first occurrence of every key, in order. *)
Lemma dict_fromkeys_first_seen l : dict_fromkeys l = first_seen l.
Proof.
  unfold dict_fromkeys. rewrite fromkeys_fold. cbn [app].
  induction (first_seen l) as [|y k IH]; [reflexivity|].
  rewrite filter_cons_True; [now rewrite IH|]. intros H. inversion H.
Qed.

Lemma elem_of_first_seen l y : y ∈ first_seen l <-> y ∈ l.
Proof.
  induction l as [|x l IH]; [reflexivity|].
  cbn [first_seen]. rewrite !elem_of_cons, list_elem_of_filter, IH.
  destruct (decide (y = x)); tauto.
Qed.

Lemma NoDup_first_seen l : NoDup (first_seen l).
Proof.
  induction l as [|x l IH]; cbn [first_seen]; [constructor|].
  apply NoDup_cons. split; [|now apply NoDup_filter].
  rewrite list_elem_of_filter. tauto.
Qed.

Lemma first_seen_sublist l : sublist (first_seen l) l.
Proof.
  induction l as [|x l IH]; cbn [first_seen]; [constructor|].
  apply sublist_skip. etransitivity; [apply sublist_filter|exact IH].
Qed.

Lemma first_seen_replicate n x : first_seen (replicate (S n) x) = [x].
Proof.
  induction n as [|n IH]; [reflexivity|].
  change (replicate (S (S n)) x) with (x :: replicate (S n) x).
  cbn [first_seen]. rewrite IH. now rewrite filter_cons_False by tauto.
Qed.

End Hover.

(** * The record filter and the callback *)

Section RecordFilter.

Variable re_compile : string -> option (string -> bool).

Implicit Types (df : list row) (r : row) (pat investor : string).

Lemma filter_filter_andb {A} (f g : A -> bool) (l : list A) :
  List.filter g (List.filter f l) = List.filter (fun x => f x && g x) l.
Proof.
  induction l as [|x l IH]; [reflexivity|].
  cbn [List.filter]. destruct (f x); cbn [andb List.filter]; [|exact IH].
  destruct (g x); now rewrite IH.
Qed.

Lemma year_in_range_spec start_year end_year r :
  year_in_range start_year end_year r = true
  <-> exists y, announced_year r = Some y /\ (start_year <= y <= end_year)%Z.
Proof.
  unfold year_in_range. destruct (announced_year r) as [y|].
  - rewrite andb_true_iff, !Z.leb_le. split.
    + intros H. exists y. split; [reflexivity|lia].
    + intros (y' & [= <-] & H). lia.
  - split; [discriminate|]. intros (y & Hy & _). discriminate.
Qed.

Lemma str_contains_plain pat :
  PyStr.plain_pattern pat = true ->
  str_contains re_compile pat
  = Some (fun s => PyStr.contains (PyStr.lower pat) (PyStr.lower s)).
Proof. intros H. unfold str_contains. now rewrite H. Qed.

(** The sentinel is the string [All], compared as it is. *)
Lemma record_filter_all start_year end_year df :
  record_filter re_compile start_year end_year (Some "All") df
  = Returned (List.filter (year_in_range start_year end_year) df).
Proof. reflexivity. Qed.

Lemma record_filter_plain start_year end_year investor df :
  investor <> "All" -> PyStr.plain_pattern investor = true ->
  record_filter re_compile start_year end_year (Some investor) df
  = Returned (List.filter (fun r =>
      year_in_range start_year end_year r
      && PyStr.contains (PyStr.lower investor) (PyStr.lower (investor_names r))) df).
Proof.
  intros Hne Hplain. unfold record_filter.
  rewrite decide_False by congruence.
  now rewrite (str_contains_plain _ Hplain), filter_filter_andb.
Qed.

(** Whatever the investor filter is, a row that is kept is a row of the data
    whose year lies in the range. *)
Lemma record_filter_in_range start_year end_year investor_filter df out r :
  record_filter re_compile start_year end_year investor_filter df = Returned out ->
  r ∈ out -> r ∈ df /\ year_in_range start_year end_year r = true.
Proof.
  unfold record_filter. destruct (decide (investor_filter = Some "All")).
  - intros [= <-]. rewrite list_elem_of_In, filter_In, <- list_elem_of_In. tauto.
  - destruct investor_filter as [pat|]; [|discriminate].
    destruct (str_contains re_compile pat) as [found|]; [|discriminate].
    intros [= <-]. rewrite filter_filter_andb.
    rewrite list_elem_of_In, filter_In, <- list_elem_of_In, andb_true_iff. tauto.
Qed.

End RecordFilter.

(** * The claims of the specification *)

Lemma elem_of_co_investments df a b :
  (a, b) ∈ co_investments df
  <-> exists r, r ∈ df /\ PyStr.truthy (investor_names r) = true
             /\ (a, b) ∈ create_co_investment_pairs (row_investors r).
Proof.
  unfold co_investments. rewrite list_elem_of_In, in_flat_map. split.
  - intros (r & Hr & Hab). exists r. rewrite list_elem_of_In.
    destruct (PyStr.truthy (investor_names r)); [|contradiction].
    rewrite list_elem_of_In. auto.
  - intros (r & Hr & Ht & Hab). exists r. rewrite Ht, <- !list_elem_of_In. auto.
Qed.

Lemma adjacent_build_graph df a b :
  adjacent (build_graph df) a b
  <-> (a, b) ∈ co_investments df \/ (b, a) ∈ co_investments df.
Proof.
  unfold build_graph. rewrite adjacent_add_edges_from. split; [|auto].
  intros [(s & Hs & _)|H]; [now rewrite lookup_empty in Hs|exact H].
Qed.

Lemma symmetric_build_graph df : symmetric (build_graph df).
Proof. apply symmetric_add_edges_from. Qed.

Lemma adjacent_dom G a b : symmetric G -> adjacent G a b -> a ∈ dom G /\ b ∈ dom G.
Proof.
  intros Hsym H. destruct (Hsym _ _ H) as (s' & Hs' & _).
  destruct H as (s & Hs & _). split; apply elem_of_dom; eauto.
Qed.

Lemma elem_of_nodes_to_remove_degree G min_degree n :
  n ∈ nodes_to_remove_degree G min_degree
  <-> n ∈ nodes G /\ (Z.of_nat (degree G n) < min_degree)%Z.
Proof.
  unfold nodes_to_remove_degree.
  now rewrite list_elem_of_In, filter_In, <- list_elem_of_In, Z.ltb_lt.
Qed.

Lemma elem_of_nodes_filter_degree G min_degree n :
  n ∈ nodes (filter_degree G min_degree)
  <-> n ∈ nodes G /\ ~ (Z.of_nat (degree G n) < min_degree)%Z.
Proof.
  unfold filter_degree.
  rewrite !elem_of_nodes, dom_remove_nodes_from, elem_of_difference,
    elem_of_list_to_set, elem_of_nodes_to_remove_degree, elem_of_nodes.
  tauto.
Qed.

Lemma path_graph_built : build_graph path_rows = path_graph.
Proof. vm_compute. reflexivity. Qed.

(** C1.  The degree filter is a single pass.  For every graph and every
    [min_degree], the nodes removed are exactly the nodes whose degree in the
    graph as it was given is below [min_degree], and the nodes that stay are
    exactly the others, whatever the removals do to their degree.  In a
    built graph the neighbours that stay are the former neighbours that were
    not removed, so the graph that is left is given in closed form by the
    graph that was given.  On the path A - B - C with [min_degree = 2], A and C (degree
    1) go and B (degree 2) stays, with degree 0 afterwards; the filter being a
    function of the graph and the threshold, every run on this input returns
    this same graph. *)
Theorem degree_filter_single_pass :
  (forall (G : graph) (min_degree : Z) (n : string),
      (n ∈ nodes_to_remove_degree G min_degree
       <-> n ∈ nodes G /\ (Z.of_nat (degree G n) < min_degree)%Z)
      /\ (n ∈ nodes (filter_degree G min_degree)
          <-> n ∈ nodes G /\ ~ (Z.of_nat (degree G n) < min_degree)%Z))
  /\ (forall (df : list row) (min_degree : Z) (a b : string),
         adjacent (filter_degree (build_graph df) min_degree) a b
         <-> adjacent (build_graph df) a b
             /\ ~ (Z.of_nat (degree (build_graph df) a) < min_degree)%Z
             /\ ~ (Z.of_nat (degree (build_graph df) b) < min_degree)%Z)
  /\ (forall (df : list row) (min_degree : Z) (n : string),
         filter_degree (build_graph df) min_degree !! n
         = if decide (n ∈ nodes_to_remove_degree (build_graph df) min_degree)
           then None
           else (fun nbrs =>
                   nbrs ∖ list_to_set
                            (nodes_to_remove_degree (build_graph df) min_degree))
                <$> build_graph df !! n)
  /\ (build_graph path_rows = path_graph
      /\ degree path_graph "A" = 1 /\ degree path_graph "B" = 2
      /\ degree path_graph "C" = 1
      /\ filter_degree path_graph 2 = {["B" := ∅]}
      /\ degree (filter_degree path_graph 2) "B" = 0).
Proof.
  split; [|split; [|split]].
  - intros G min_degree n. split.
    + apply elem_of_nodes_to_remove_degree.
    + apply elem_of_nodes_filter_degree.
  - intros df min_degree a b. unfold filter_degree.
    rewrite (adjacent_remove_nodes_from _ _ _ _ (symmetric_build_graph df)).
    rewrite !elem_of_nodes_to_remove_degree, !elem_of_nodes.
    split; [|tauto]. intros (Hab & Ha & Hb).
    destruct (adjacent_dom _ _ _ (symmetric_build_graph df) Hab). tauto.
  - intros df min_degree n. unfold filter_degree.
    apply remove_nodes_from_lookup, symmetric_build_graph.
  - split; [apply path_graph_built|].
    repeat split; vm_compute; reflexivity.
Qed.

(** Running the filter again on its own output is another matter: B, left
    with degree 0, is removed by a second pass. *)
Lemma degree_filter_second_pass :
  filter_degree (filter_degree path_graph 2) 2 = ∅.
Proof. vm_compute. reflexivity. Qed.

Lemma co_investments_row_length r :
  length (co_investments [r])
  = length (List.filter PyStr.truthy (row_investors r))
    * (length (List.filter PyStr.truthy (row_investors r)) - 1) / 2.
Proof.
  unfold co_investments. cbn [flat_map]. rewrite app_nil_r.
  destruct (investor_names r) as [|c t] eqn:E; cbn [PyStr.truthy].
  - now rewrite (row_investors_empty _ E).
  - now rewrite create_co_investment_pairs_combinations, combinations_length,
      nonempty_names_row.
Qed.

(** C6.  For every investor list, the pair generator returns the
    combinations [(names[i], names[j])], [i < j], of the names that are not
    empty after trimming, in list order: [k * (k - 1) / 2] pairs for [k] such
    names.  For the investors of a row, already trimmed, these are its
    non-empty names, and the row contributes [k * (k - 1) / 2] pairs to the
    edge candidates.  In the built graph no two entries of the edge list
    stand for the same unordered pair, and every generated pair is an edge in
    one direction or the other. *)
Theorem pairs_are_combinations :
  (forall investors : list string,
      let names := nonempty_names investors in
      create_co_investment_pairs investors = combinations names
      /\ length (create_co_investment_pairs investors)
         = length names * (length names - 1) / 2
      /\ forall a b, (a, b) ∈ create_co_investment_pairs investors
                     <-> exists i j, i < j /\ names !! i = Some a
                                     /\ names !! j = Some b)
  /\ (forall r : row,
         let k := length (List.filter PyStr.truthy (row_investors r)) in
         nonempty_names (row_investors r)
         = List.filter PyStr.truthy (row_investors r)
         /\ length (co_investments [r]) = k * (k - 1) / 2)
  /\ (forall (df : list row) i j e1 e2,
         i <> j -> edges (build_graph df) !! i = Some e1 ->
         edges (build_graph df) !! j = Some e2 -> ~ same_unordered e1 e2)
  /\ (forall (df : list row) u v,
         (u, v) ∈ co_investments df ->
         (u, v) ∈ edges (build_graph df) \/ (v, u) ∈ edges (build_graph df)).
Proof.
  split; [|split; [|split]].
  - intros investors names. subst names.
    rewrite create_co_investment_pairs_combinations.
    split; [reflexivity|]. split; [apply combinations_length|].
    intros a b. apply combinations_lookup.
  - intros r k. subst k. split; [apply nonempty_names_row|].
    apply co_investments_row_length.
  - intros df. apply edges_distinct.
  - intros df u v Huv.
    apply adjacent_elem_of_edges; [apply symmetric_build_graph|].
    apply adjacent_build_graph. now left.
Qed.

(** The claim C2 fails on a row that lists an investor twice: the generator
    returns the pair (A, A) and the graph gets a self-loop on A, which the
    degree counts twice. *)
Lemma self_pair_counterexample :
  ("A", "A") ∈ create_co_investment_pairs (row_investors repeated_row)
  /\ adjacent (build_graph [repeated_row]) "A" "A"
  /\ ("A", "A") ∈ edges (build_graph [repeated_row])
  /\ degree (build_graph [repeated_row]) "A" = 2.
Proof.
  assert (H : ("A", "A") ∈ create_co_investment_pairs (row_investors repeated_row)).
  { change (("A", "A") ∈ [("A", "A")]). apply list_elem_of_here. }
  split; [exact H|]. split; [|split].
  - apply adjacent_build_graph. left. apply elem_of_co_investments.
    exists repeated_row. split; [apply list_elem_of_here|]. split; [reflexivity|exact H].
  - change (("A", "A") ∈ [("A", "A")]). apply list_elem_of_here.
  - vm_compute. reflexivity.
Qed.

(** C2, as amended.  The generator returns a pair [(a, a)] exactly when the
    non-empty name [a] stands at two positions of the trimmed list, and the
    built graph has a self-loop on [a] exactly when a row does so.  Lists
    that repeat no non-empty name give no such pair, and rows with such
    lists give a graph without self-loops. *)
Theorem self_pairs_from_repeated_names :
  (forall (investors : list string) (a : string),
      (a, a) ∈ create_co_investment_pairs investors
      <-> exists i j, i < j /\ nonempty_names investors !! i = Some a
                      /\ nonempty_names investors !! j = Some a)
  /\ (forall (investors : list string) (a b : string),
         NoDup (nonempty_names investors) ->
         (a, b) ∈ create_co_investment_pairs investors -> a <> b)
  /\ (forall (df : list row) (a : string),
         adjacent (build_graph df) a a
         <-> exists r, r ∈ df /\ PyStr.truthy (investor_names r) = true
                    /\ (a, a) ∈ create_co_investment_pairs (row_investors r))
  /\ (forall df : list row,
         (forall r, r ∈ df -> NoDup (List.filter PyStr.truthy (row_investors r))) ->
         forall a, ~ adjacent (build_graph df) a a).
Proof.
  assert (Hnd : forall investors a b,
             NoDup (nonempty_names investors) ->
             (a, b) ∈ create_co_investment_pairs investors -> a <> b).
  { intros investors a b Hnodup Hab ->.
    rewrite create_co_investment_pairs_combinations in Hab.
    apply combinations_lookup in Hab as (i & j & Hij & Hi & Hj).
    pose proof (NoDup_lookup _ _ _ _ Hnodup Hi Hj). lia. }
  assert (Hloop : forall df a,
             adjacent (build_graph df) a a
             <-> exists r, r ∈ df /\ PyStr.truthy (investor_names r) = true
                        /\ (a, a) ∈ create_co_investment_pairs (row_investors r)).
  { intros df a. rewrite adjacent_build_graph, elem_of_co_investments. tauto. }
  split; [|split; [|split]].
  - intros investors a. rewrite create_co_investment_pairs_combinations.
    apply combinations_lookup.
  - exact Hnd.
  - exact Hloop.
  - intros df Hdf a Ha. apply Hloop in Ha as (r & Hr & _ & Haa).
    apply (Hnd (row_investors r) a a); [|exact Haa|reflexivity].
    rewrite nonempty_names_row. now apply Hdf.
Qed.

(** The claim C3 fails for the investor parameter [all]: the code knows the
    sentinel [All] only, so [all] is searched for as a name, and a row of
    the range whose investors do not contain it is dropped. *)
Lemma lowercase_sentinel_counterexample :
  ~ (forall (start_year end_year : Z) (investor : string) (df out : list row) (r : row),
        record_filter (fun _ => None) start_year end_year (Some investor) df
        = Returned out ->
        (r ∈ out <-> r ∈ df /\ claimed_keep start_year end_year investor r)).
Proof.
  intros H.
  specialize (H 2020%Z 2020%Z "all" [row_of "Bob"] [] (row_of "Bob") eq_refl).
  destruct H as [_ H].
  assert (Hin : row_of "Bob" ∈ @nil row); [|inversion Hin].
  apply H. split; [apply list_elem_of_here|]. split.
  - exists 2020%Z. split; [reflexivity|lia].
  - intros _ Hall. now contradiction Hall.
Qed.

(** C3, as amended.  For an investor parameter without regular-expression
    metacharacters, the record filter keeps, in their order, the rows whose
    announced date parsed to a year of [start_year .. end_year], bounds
    included, and, unless the parameter is the string [All] itself, whose
    investor-name field contains the parameter, letter case ignored.  A row
    without a parsed date is never kept. *)
Theorem record_filter_keeps (re_compile : string -> option (string -> bool))
    (start_year end_year : Z) (investor : string) (df : list row) :
  PyStr.plain_pattern investor = true ->
  exists out,
    record_filter re_compile start_year end_year (Some investor) df = Returned out
    /\ out = List.filter (fun r =>
               year_in_range start_year end_year r
               && (bool_decide (investor = "All")
                   || PyStr.contains (PyStr.lower investor)
                                     (PyStr.lower (investor_names r)))) df
    /\ (forall r, r ∈ out <->
          r ∈ df
          /\ (exists y, announced_year r = Some y /\ (start_year <= y <= end_year)%Z)
          /\ (investor <> "All" ->
              exists a b, PyStr.lower (investor_names r)
                          = a +:+ PyStr.lower investor +:+ b))
    /\ (forall r, announced_year r = None -> r ∉ out).
Proof.
  intros Hplain. eexists. split; [|split; [reflexivity|]].
  - destruct (decide (investor = "All")) as [->|Hne].
    + rewrite record_filter_all. f_equal. apply filter_ext. intros r.
      now rewrite bool_decide_eq_true_2, andb_true_r.
    + rewrite (record_filter_plain _ _ _ _ _ Hne Hplain). f_equal.
      apply filter_ext. intros r. now rewrite bool_decide_eq_false_2.
  - assert (Hiff : forall r,
      r ∈ List.filter (fun r =>
            year_in_range start_year end_year r
            && (bool_decide (investor = "All")
                || PyStr.contains (PyStr.lower investor)
                                  (PyStr.lower (investor_names r)))) df
      <-> r ∈ df
          /\ (exists y, announced_year r = Some y /\ (start_year <= y <= end_year)%Z)
          /\ (investor <> "All" ->
              exists a b, PyStr.lower (investor_names r)
                          = a +:+ PyStr.lower investor +:+ b)).
    { intros r.
      rewrite list_elem_of_In, filter_In, <- list_elem_of_In, andb_true_iff,
        orb_true_iff, year_in_range_spec, contains_spec, bool_decide_eq_true.
      destruct (decide (investor = "All")); tauto. }
    split; [exact Hiff|].
    intros r Hr Hin. apply Hiff in Hin as (_ & (y & Hy & _) & _). congruence.
Qed.

(** The amended C3 at work: [vision] finds a row of [TechVisionFund]. *)
Lemma record_filter_keeps_witness :
  exists out,
    record_filter (fun _ => None) 2020 2025 (Some "vision")
                  [row_of "TechVisionFund, Beta"; row_of "Gamma"] = Returned out
    /\ out = [row_of "TechVisionFund, Beta"].
Proof.
  destruct (record_filter_keeps (fun _ => None) 2020 2025 "vision"
              [row_of "TechVisionFund, Beta"; row_of "Gamma"] eq_refl)
    as (out & Hout & Heq & _).
  exists out. split; [exact Hout|]. rewrite Heq. reflexivity.
Defined.

(** The claim C8 fails twice.  With a numeric parameter missing the callback
    returns [go.Figure()], which has no title and so no reason; and a missing
    investor parameter is not guarded: it reaches the record filter, where
    [str.contains(None)] raises. *)
Lemma null_guard_counterexample :
  ~ reason_marker (update_graph (fun _ => None) (fun _ => None) path_rows None
                     (Some "All") None (Some 2025%Z) (Some 1%Z) (Some 1%Z))
  /\ ~ reason_marker (update_graph (fun _ => None) (fun _ => None) path_rows None
                        None (Some 2020%Z) (Some 2025%Z) (Some 1%Z) (Some 1%Z)).
Proof.
  split; intros [reason H]; discriminate H.
Qed.

(** C8, as amended.  If one of the four numeric parameters is [None], the
    callback returns the bare empty figure, without a title, whatever the
    data and the investor parameter are: no filtering takes place.  The
    investor parameter is not checked. *)
Theorem null_guard (float_of_str : string -> option float)
    (re_compile : string -> option (string -> bool)) (df : list row)
    (n_clicks : option Z) (investor_perspective : option string)
    (start_year end_year min_degree min_rounds : option Z) :
  start_year = None \/ end_year = None \/ min_degree = None \/ min_rounds = None ->
  update_graph float_of_str re_compile df n_clicks investor_perspective
               start_year end_year min_degree min_rounds
  = Returned empty_figure
  /\ fig_title empty_figure = None /\ fig_data empty_figure = None.
Proof.
  intros H. split; [|split; reflexivity].
  unfold update_graph.
  destruct start_year, end_year, min_degree, min_rounds; try reflexivity.
  destruct H as [H|[H|[H|H]]]; discriminate H.
Qed.

(** With the four numbers given, a missing investor parameter reaches the
    record filter, where [str.contains(None)] raises. *)
Lemma missing_investor_raises (float_of_str : string -> option float)
    (re_compile : string -> option (string -> bool)) (df : list row)
    (n_clicks : option Z) (start_year end_year min_degree min_rounds : Z) :
  update_graph float_of_str re_compile df n_clicks None
               (Some start_year) (Some end_year) (Some min_degree) (Some min_rounds)
  = Raised TypeError.
Proof.
  unfold update_graph. now destruct (start_year >? end_year)%Z.
Qed.

Lemma null_guard_witness :
  update_graph float_of_digits (fun _ => None) path_rows (Some 1%Z) None
               (Some 2020%Z) None (Some 1%Z) (Some 1%Z)
  = Returned empty_figure
  /\ fig_title empty_figure = None /\ fig_data empty_figure = None.
Proof.
  apply null_guard. right. left. reflexivity.
Defined.

(** The claim C4 fails on a row that lists an investor twice: [rounds] is
    incremented once per listing, so A gets 2 rounds from 1 row. *)
Lemma rounds_counterexample :
  ~ (forall (df : list row) (x : string),
        rounds_or 0 (aggregate (fun _ => None) df) x = rows_listing x df).
Proof.
  intros H. specialize (H [repeated_row] "A").
  vm_compute in H. discriminate H.
Qed.

Lemma rows_listing_listed_count x df :
  (forall r, r ∈ df -> occurrences x (row_investors r) <= 1) ->
  listed_count x df = rows_listing x df.
Proof.
  unfold listed_count, rows_listing.
  induction df as [|r df IH]; intros H; [reflexivity|].
  cbn [sum_list_with List.filter].
  rewrite IH by (intros r' Hr'; apply H; now right).
  specialize (H r (list_elem_of_here _ _)).
  destruct (decide (x ∈ row_investors r)) as [Hin|Hin].
  - rewrite bool_decide_eq_true_2 by assumption.
    apply occurrences_pos in Hin. cbn [length]. lia.
  - rewrite bool_decide_eq_false_2 by assumption.
    rewrite occurrences_pos in Hin. lia.
Qed.

Lemma entry_step_sound m d x o inv :
  (o = None <-> entry_rounds o = 0) ->
  (entry_step m d x o inv = None <-> entry_rounds (entry_step m d x o inv) = 0).
Proof.
  unfold entry_step. destruct (decide (inv = x)); [|tauto].
  intros _. cbn. split; [discriminate|lia].
Qed.

Lemma entry_row_sound float_of_str x o r :
  (o = None <-> entry_rounds o = 0) ->
  (entry_row float_of_str x o r = None
   <-> entry_rounds (entry_row float_of_str x o r) = 0).
Proof.
  unfold entry_row. destruct (PyStr.truthy (investor_names r)); [|tauto].
  generalize (money_of float_of_str (money_raised r)) (transaction_detail r).
  intros m d. revert o.
  induction (row_investors r) as [|inv l IH]; intros o Ho; [exact Ho|].
  cbn [fold_left]. apply IH, entry_step_sound, Ho.
Qed.

Lemma entry_rows_sound float_of_str x df o :
  (o = None <-> entry_rounds o = 0) ->
  (fold_left (entry_row float_of_str x) df o = None
   <-> entry_rounds (fold_left (entry_row float_of_str x) df o) = 0).
Proof.
  revert o. induction df as [|r df IH]; intros o Ho; [exact Ho|].
  cbn [fold_left]. apply IH, entry_row_sound, Ho.
Qed.

(** An entry exists exactly when its [rounds] is at least 1. *)
Lemma aggregate_none_iff float_of_str df x :
  aggregate float_of_str df !! x = None
  <-> rounds_or 0 (aggregate float_of_str df) x = 0.
Proof.
  rewrite rounds_or_entry, aggregate_lookup.
  apply entry_rows_sound. cbn. tauto.
Qed.

(** C4, as amended.  For every non-empty investor name [x], the aggregated
    [rounds] of [x] is the number of listings of [x] in the trimmed investor
    lists of the filtered rows, a row that lists [x] several times counting
    as often; there is no entry for [x] exactly when that number is 0.  When
    no row lists [x] more than once, it is the number of rows that list [x]. *)
Theorem rounds_count_listings (float_of_str : string -> option float)
    (df : list row) (x : string) :
  x <> EmptyString ->
  rounds_or 0 (aggregate float_of_str df) x = listed_count x df
  /\ (aggregate float_of_str df !! x = None <-> listed_count x df = 0)
  /\ ((forall r, r ∈ df -> occurrences x (row_investors r) <= 1) ->
      rounds_or 0 (aggregate float_of_str df) x = rows_listing x df).
Proof.
  intros Hx. pose proof (rounds_listed_count float_of_str df x Hx) as Hcount.
  split; [exact Hcount|]. split.
  - now rewrite aggregate_none_iff, Hcount.
  - intros Hone. now rewrite Hcount, rows_listing_listed_count.
Qed.

Lemma rounds_count_listings_witness :
  rounds_or 0 (aggregate float_of_digits (repeated_row :: path_rows)) "A"
  = listed_count "A" (repeated_row :: path_rows)
  /\ listed_count "A" (repeated_row :: path_rows) = 3.
Proof.
  split; [|reflexivity].
  apply (rounds_count_listings float_of_digits (repeated_row :: path_rows) "A").
  discriminate.
Defined.

Lemma money_of_na float_of_str val :
  pd_isna val = true -> money_of float_of_str val = 0%float.
Proof. intros H. unfold money_of. now rewrite H. Qed.

Lemma money_of_token float_of_str s :
  PyStr.lower (PyStr.strip s) ∈ ["n/a"; "na"; EmptyString] ->
  money_of float_of_str (CellStr s) = 0%float.
Proof.
  intros H. unfold money_of. cbn [pd_isna orb].
  now rewrite bool_decide_eq_true_2.
Qed.

Lemma money_of_unconvertible float_of_str val :
  to_float float_of_str val = None -> money_of float_of_str val = 0%float.
Proof.
  intros H. unfold money_of. rewrite H.
  now destruct (pd_isna val || _).
Qed.

Lemma money_of_number float_of_str val f :
  pd_isna val = false ->
  (forall s, val = CellStr s ->
             PyStr.lower (PyStr.strip s) ∉ ["n/a"; "na"; EmptyString]) ->
  to_float float_of_str val = Some f ->
  money_of float_of_str val = f.
Proof.
  intros Hna Htok Hf. unfold money_of. rewrite Hna, Hf. cbn [orb].
  destruct val as [|z|g|s]; try reflexivity.
  now rewrite bool_decide_eq_false_2 by (now apply Htok).
Qed.

(** C5.  A money cell never makes the aggregation fail.  A missing or NaN
    cell, a string that is [n/a], [na] or empty once trimmed and lower-cased,
    and a value that [float] rejects all count 0.0; every other cell counts
    the number [float] returns for it.  With [float("50") = 50.0], rows of one
    investor with the amounts [100, "n/a", "", None, "50"] add up to 150.0. *)
Theorem money_normalised (float_of_str : string -> option float) :
  float_of_str "50" = Some 50%float ->
  (forall val, pd_isna val = true -> money_of float_of_str val = 0%float)
  /\ (forall s, PyStr.lower (PyStr.strip s) ∈ ["n/a"; "na"; EmptyString] ->
                money_of float_of_str (CellStr s) = 0%float)
  /\ (forall val, to_float float_of_str val = None ->
                  money_of float_of_str val = 0%float)
  /\ (forall val f,
         pd_isna val = false ->
         (forall s, val = CellStr s ->
                    PyStr.lower (PyStr.strip s) ∉ ["n/a"; "na"; EmptyString]) ->
         to_float float_of_str val = Some f ->
         money_of float_of_str val = f)
  /\ map (fun r => money_of float_of_str (money_raised r)) money_rows
     = [100; 0; 0; 0; 50]%float
  /\ money <$> aggregate float_of_str money_rows !! "X" = Some 150%float.
Proof.
  intros H50.
  assert (H1 : money_of float_of_str (CellInt 100) = 100%float) by reflexivity.
  assert (H2 : money_of float_of_str (CellStr "n/a") = 0%float) by reflexivity.
  assert (H3 : money_of float_of_str (CellStr EmptyString) = 0%float) by reflexivity.
  assert (H4 : money_of float_of_str CellNone = 0%float) by reflexivity.
  assert (H5 : money_of float_of_str (CellStr "50") = 50%float).
  { apply money_of_number; [reflexivity| |exact H50].
    intros s [= <-]. vm_compute. intros H.
    repeat (apply elem_of_cons in H as [H|H]; [discriminate H|]). inversion H. }
  split; [apply money_of_na|]. split; [apply money_of_token|].
  split; [apply money_of_unconvertible|]. split; [apply money_of_number|].
  split.
  - cbn [map money_rows money_row money_raised]. now rewrite H1, H2, H3, H4, H5.
  - rewrite aggregate_lookup. unfold money_rows. cbn [fold_left]. unfold entry_row.
    cbn [money_row money_raised investor_names PyStr.truthy].
    rewrite H1, H2, H3, H4, H5. vm_compute. reflexivity.
Qed.

Lemma money_normalised_witness :
  money <$> aggregate float_of_digits money_rows !! "X" = Some 150%float.
Proof.
  apply (money_normalised float_of_digits). reflexivity.
Defined.

(** C7 fails on the code: the aggregation trims the names but keeps the
    empty ones, unlike the pair generator.  A row whose investor field has an
    empty segment ([A,,B]) creates an entry under the empty name, with one
    round; so does every filtered row that lists an empty name. *)
Theorem empty_name_gets_entry (float_of_str : string -> option float) :
  row_investors empty_segment_row = ["A"; EmptyString; "B"]
  /\ rounds <$> aggregate float_of_str [empty_segment_row] !! EmptyString = Some 1
  /\ (forall (df : list row) (r : row),
         r ∈ df -> PyStr.truthy (investor_names r) = true ->
         EmptyString ∈ row_investors r ->
         is_Some (aggregate float_of_str df !! EmptyString)).
Proof.
  split; [reflexivity|]. split.
  - rewrite aggregate_lookup. reflexivity.
  - intros df r Hr Ht He.
    pose proof (rounds_ge_listing float_of_str df r _ Hr Ht He) as Hge.
    unfold rounds_or in Hge.
    destruct (aggregate float_of_str df !! EmptyString); [eauto|lia].
Qed.

(** C9.  The transactions of the hover text are the investor's transactions
    without repetitions, each kept where it first occurs.  When more than 3
    remain, the first 3 are kept and the marker [...] is appended; otherwise
    they are all kept and nothing is appended.  Five equal transactions give
    one entry and no marker. *)
Theorem hover_log_dedup_and_cap :
  (forall txs : list string,
      dict_fromkeys txs = first_seen txs
      /\ NoDup (dict_fromkeys txs)
      /\ (forall x, x ∈ dict_fromkeys txs <-> x ∈ txs)
      /\ sublist (dict_fromkeys txs) txs)
  /\ (forall txs : list string,
         hover_transactions txs
         = if decide (3 < length (first_seen txs))
           then take 3 (first_seen txs) ++ ["..."]
           else first_seen txs)
  /\ (forall s : string, hover_transactions (replicate 5 s) = [s])
  /\ (forall (G : graph) (info : gmap string investor_stats) n st,
         info !! n = Some st ->
         node_details (view_node G info n)
         = Some (Hover (rounds st) (money st)
                       (hover_transactions (transactions st)))).
Proof.
  split; [|split; [|split]].
  - intros txs. rewrite dict_fromkeys_first_seen.
    split; [reflexivity|]. split; [apply NoDup_first_seen|].
    split; [intros x; apply elem_of_first_seen|apply first_seen_sublist].
  - intros txs. unfold hover_transactions. rewrite dict_fromkeys_first_seen.
    destruct (decide (3 < length (first_seen txs))) as [H|H].
    + apply Nat.ltb_lt in H. now rewrite H.
    + apply Nat.ltb_nlt in H. now rewrite H.
  - intros s. unfold hover_transactions.
    now rewrite dict_fromkeys_first_seen, (first_seen_replicate 4).
  - intros G info n st H. unfold view_node. cbn [node_details]. now rewrite H.
Qed.

Lemma nodes_filter_rounds_subseteq G info min_rounds n :
  n ∈ nodes (filter_rounds G info min_rounds) -> n ∈ nodes G.
Proof.
  unfold filter_rounds. rewrite !elem_of_nodes, dom_remove_nodes_from.
  set_solver.
Qed.

Lemma elem_of_nodes_build_graph df n :
  n ∈ nodes (build_graph df) ->
  exists r, r ∈ df /\ PyStr.truthy (investor_names r) = true
            /\ n ∈ row_investors r.
Proof.
  unfold build_graph. rewrite elem_of_nodes, dom_add_edges_from, dom_empty_L.
  intros [H|[m H]]; [now apply not_elem_of_empty in H|].
  assert (Hr : exists r a b, r ∈ df /\ PyStr.truthy (investor_names r) = true
                 /\ (a, b) ∈ create_co_investment_pairs (row_investors r)
                 /\ (n = a \/ n = b)).
  { destruct H as [H|H]; apply elem_of_co_investments in H as (r & Hr & Ht & Hp);
      [exists r, n, m|exists r, m, n]; auto. }
  destruct Hr as (r & a & b & Hr & Ht & Hp & Hn).
  exists r. split; [exact Hr|]. split; [exact Ht|].
  apply pairs_elem in Hp as [Ha Hb]. rewrite nonempty_names_row in Ha, Hb.
  rewrite list_elem_of_In, filter_In, <- list_elem_of_In in Ha, Hb.
  destruct Hn as [->| ->]; tauto.
Qed.

(** C10.  Every node of the built graph, and so every node that is left
    after the degree filter and after the rounds filter, has an entry in the
    aggregated statistics, with [rounds] at least 1: the lookups of the rounds
    filter (default 0) and of the node sizes (default 1) return the entry's
    [rounds], never the default. *)
Theorem graph_nodes_have_stats (float_of_str : string -> option float)
    (df : list row) (min_degree min_rounds : Z) (n : string) :
  let investor_info := aggregate float_of_str df in
  let G := build_graph df in
  let G1 := filter_degree G min_degree in
  let G2 := filter_rounds G1 investor_info min_rounds in
  n ∈ nodes G \/ n ∈ nodes G1 \/ n ∈ nodes G2 ->
  exists st, investor_info !! n = Some st
             /\ 1 <= rounds st
             /\ rounds_or 0 investor_info n = rounds st
             /\ rounds_or 1 investor_info n = rounds st.
Proof.
  intros investor_info G G1 G2 Hn.
  assert (HG : n ∈ nodes G).
  { destruct Hn as [Hn|[Hn|Hn]]; [exact Hn| |].
    - now apply elem_of_nodes_filter_degree in Hn.
    - apply nodes_filter_rounds_subseteq in Hn.
      now apply elem_of_nodes_filter_degree in Hn. }
  apply elem_of_nodes_build_graph in HG as (r & Hr & Ht & Hin).
  pose proof (rounds_ge_listing float_of_str df r n Hr Ht Hin) as Hge.
  fold investor_info in Hge. unfold rounds_or in *.
  destruct (investor_info !! n) as [st|]; [|lia].
  exists st. auto.
Qed.

Lemma graph_nodes_have_stats_witness :
  exists st, aggregate float_of_digits path_rows !! "B" = Some st
             /\ 1 <= rounds st
             /\ rounds_or 0 (aggregate float_of_digits path_rows) "B" = rounds st
             /\ rounds_or 1 (aggregate float_of_digits path_rows) "B" = rounds st.
Proof.
  apply (graph_nodes_have_stats float_of_digits path_rows 2 1 "B").
  right. right. vm_compute. apply list_elem_of_here.
Defined.

(** * Further properties of the code *)

(** ** The callback and the record filter *)

Lemma gtb_min_max a b :
  (if (a >? b)%Z then (b, a) else (a, b)) = (Z.min a b, Z.max a b).
Proof.
  destruct (a >? b)%Z eqn:E.
  - apply Z.gtb_lt in E. now rewrite Z.min_r, Z.max_l by lia.
  - rewrite Z.gtb_ltb in E. apply Z.ltb_ge in E.
    now rewrite Z.min_l, Z.max_r by lia.
Qed.

(** X1.  The callback orders the two years before it filters: with the four
    numbers given, it runs the pipeline on the smaller and the larger year,
    so swapping the start and the end year changes nothing, title included. *)
Theorem update_graph_orders_years (float_of_str : string -> option float)
    (re_compile : string -> option (string -> bool)) (df : list row)
    (n_clicks : option Z) (investor_perspective : option string)
    (a b min_degree min_rounds : Z) :
  update_graph float_of_str re_compile df n_clicks investor_perspective
               (Some a) (Some b) (Some min_degree) (Some min_rounds)
  = generate_network_figure float_of_str re_compile df (Z.min a b) (Z.max a b)
                            min_degree min_rounds investor_perspective
  /\ update_graph float_of_str re_compile df n_clicks investor_perspective
                  (Some a) (Some b) (Some min_degree) (Some min_rounds)
     = update_graph float_of_str re_compile df n_clicks investor_perspective
                    (Some b) (Some a) (Some min_degree) (Some min_rounds).
Proof.
  unfold update_graph. rewrite !gtb_min_max.
  split; [reflexivity|]. now rewrite Z.min_comm, Z.max_comm.
Qed.

Lemma record_filter_raised re_compile start_year end_year investor_filter df e :
  record_filter re_compile start_year end_year investor_filter df = Raised e
  <-> (investor_filter = None /\ e = TypeError)
      \/ (exists pat, investor_filter = Some pat /\ pat <> "All"
                      /\ PyStr.plain_pattern pat = false
                      /\ re_compile pat = None /\ e = ReError).
Proof.
  unfold record_filter, str_contains.
  destruct (decide (investor_filter = Some "All")) as [->|Hne].
  - split; [discriminate|]. intros [[H _]|(pat & [= <-] & Hp & _)]; congruence.
  - destruct investor_filter as [pat|].
    + destruct (PyStr.plain_pattern pat) eqn:Hplain.
      * split; [discriminate|].
        intros [[H _]|(p & [= <-] & _ & Hp & _)]; congruence.
      * destruct (re_compile pat) as [found|] eqn:Hre.
        -- split; [discriminate|].
           intros [[H _]|(p & [= <-] & _ & _ & Hp & _)]; congruence.
        -- split.
           ++ intros [= <-]. right. exists pat. repeat split; congruence.
           ++ intros [[H _]|(p & _ & _ & _ & _ & ->)]; congruence.
    + split.
      * intros [= <-]. now left.
      * intros [[_ ->]|(p & H & _)]; congruence.
Qed.

(** X2.  The callback raises in two cases only, both with the four numbers
    given: the investor parameter is [None] ([TypeError] from
    [str.contains]), or it is a pattern with metacharacters, other than
    [All], that the regular-expression engine rejects.  [All] and every name
    without metacharacters always give a figure. *)
Theorem update_graph_raises_iff (float_of_str : string -> option float)
    (re_compile : string -> option (string -> bool)) (df : list row)
    (n_clicks : option Z) (investor_perspective : option string)
    (start_year end_year min_degree min_rounds : option Z) (e : exn) :
  update_graph float_of_str re_compile df n_clicks investor_perspective
               start_year end_year min_degree min_rounds = Raised e
  <-> (is_Some start_year /\ is_Some end_year
       /\ is_Some min_degree /\ is_Some min_rounds)
      /\ ((investor_perspective = None /\ e = TypeError)
          \/ (exists pat, investor_perspective = Some pat /\ pat <> "All"
                          /\ PyStr.plain_pattern pat = false
                          /\ re_compile pat = None /\ e = ReError)).
Proof.
  unfold update_graph.
  destruct start_year as [a|], end_year as [b|], min_degree as [c|],
    min_rounds as [d|];
    try (split; [discriminate|]; intros [(H1 & H2 & H3 & H4) _];
         first [now destruct H1|now destruct H2|now destruct H3|now destruct H4]).
  rewrite gtb_min_max. unfold generate_network_figure.
  rewrite <- (record_filter_raised re_compile (Z.min a b) (Z.max a b)
                investor_perspective df e).
  destruct (record_filter re_compile (Z.min a b) (Z.max a b)
              investor_perspective df) as [out|e'].
  - split; [discriminate|]. intros [_ H]. discriminate H.
  - split.
    + intros [= ->]. split; [repeat split; eauto|reflexivity].
    + intros [_ [= ->]]. reflexivity.
Qed.

Lemma filter_sublist {A} (f : A -> bool) (l : list A) : sublist (List.filter f l) l.
Proof.
  induction l as [|x l IH]; cbn [List.filter]; [constructor|].
  destruct (f x); [now apply sublist_skip|now apply sublist_cons].
Qed.

(** X3.  The record filter selects: what it returns is a sub-list of the
    rows in the year range, themselves a sub-list of the data, in the same
    order; an investor filter can only drop rows that [All] keeps. *)
Theorem record_filter_narrows (re_compile : string -> option (string -> bool))
    (start_year end_year : Z) (investor_filter : option string)
    (df out : list row) :
  record_filter re_compile start_year end_year investor_filter df = Returned out ->
  record_filter re_compile start_year end_year (Some "All") df
  = Returned (List.filter (year_in_range start_year end_year) df)
  /\ sublist out (List.filter (year_in_range start_year end_year) df)
  /\ sublist out df.
Proof.
  intros H. split; [reflexivity|].
  assert (Hsub : sublist out (List.filter (year_in_range start_year end_year) df)).
  { unfold record_filter in H.
    destruct (decide (investor_filter = Some "All")).
    - injection H as <-. reflexivity.
    - destruct investor_filter as [pat|]; [|discriminate].
      destruct (str_contains re_compile pat) as [found|]; [|discriminate].
      injection H as <-. apply filter_sublist. }
  split; [exact Hsub|]. etransitivity; [exact Hsub|apply filter_sublist].
Qed.

Lemma record_filter_narrows_witness :
  sublist [row_of "TechVisionFund, Beta"]
          [row_of "TechVisionFund, Beta"; row_of "Gamma"].
Proof.
  apply (record_filter_narrows (fun _ => None) 2020 2025 (Some "vision")
           [row_of "TechVisionFund, Beta"; row_of "Gamma"]
           [row_of "TechVisionFund, Beta"]).
  reflexivity.
Defined.

(** ** The graph and its two filters *)

Lemma filter_truthy_row_empty r :
  investor_names r = EmptyString ->
  List.filter PyStr.truthy (row_investors r) = [].
Proof. intros E. now rewrite (row_investors_empty _ E). Qed.

Lemma elem_of_pairs_row r a b :
  (a, b) ∈ co_investments [r]
  <-> exists i j, i < j
        /\ List.filter PyStr.truthy (row_investors r) !! i = Some a
        /\ List.filter PyStr.truthy (row_investors r) !! j = Some b.
Proof.
  rewrite elem_of_co_investments. split.
  - intros (r' & Hr & _ & Hab). apply list_elem_of_singleton in Hr as ->.
    rewrite create_co_investment_pairs_combinations, nonempty_names_row in Hab.
    now apply combinations_lookup.
  - intros (i & j & Hij & Hi & Hj). exists r.
    split; [apply list_elem_of_here|]. split.
    + destruct (investor_names r) eqn:E; [|reflexivity].
      now rewrite (filter_truthy_row_empty _ E) in Hi.
    + rewrite create_co_investment_pairs_combinations, nonempty_names_row.
      apply combinations_lookup. eauto.
Qed.

Lemma elem_of_co_investments_row df a b :
  (a, b) ∈ co_investments df <-> exists r, r ∈ df /\ (a, b) ∈ co_investments [r].
Proof.
  rewrite elem_of_co_investments. split.
  - intros (r & Hr & Ht & Hab). exists r. split; [exact Hr|].
    apply elem_of_co_investments. exists r.
    split; [apply list_elem_of_here|]. auto.
  - intros (r & Hr & Hab). apply elem_of_co_investments in Hab as (r' & Hr' & H).
    apply list_elem_of_singleton in Hr' as ->. eauto.
Qed.

(** Two names are neighbours exactly when a row lists them, non-empty, at
    two different positions. *)
Lemma adjacent_build_graph_positions df a b :
  adjacent (build_graph df) a b
  <-> exists r i j, r ∈ df /\ i <> j
        /\ List.filter PyStr.truthy (row_investors r) !! i = Some a
        /\ List.filter PyStr.truthy (row_investors r) !! j = Some b.
Proof.
  rewrite adjacent_build_graph, !elem_of_co_investments_row. split.
  - intros [(r & Hr & H)|(r & Hr & H)];
      apply elem_of_pairs_row in H as (i & j & Hij & Hi & Hj).
    + exists r, i, j. repeat split; auto. lia.
    + exists r, j, i. repeat split; auto. lia.
  - intros (r & i & j & Hr & Hij & Hi & Hj).
    destruct (decide (i < j)).
    + left. exists r. split; [exact Hr|]. apply elem_of_pairs_row. eauto.
    + right. exists r. split; [exact Hr|]. apply elem_of_pairs_row.
      exists j, i. repeat split; auto. lia.
Qed.

Lemma elem_of_dom_build_graph df n :
  n ∈ dom (build_graph df) <-> exists m, adjacent (build_graph df) n m.
Proof.
  unfold build_graph at 1. rewrite dom_add_edges_from, dom_empty_L. split.
  - intros [H|[m H]]; [now apply not_elem_of_empty in H|].
    exists m. apply adjacent_build_graph. tauto.
  - intros [m H]. right. exists m. apply adjacent_build_graph in H. tauto.
Qed.

(** X4.  The nodes of the built graph are the non-empty trimmed names that
    a filtered row lists together with at least one other listing: an
    investor that only appears alone is no node, and neither is the empty
    name.  Two nodes are neighbours exactly when a row lists them at two
    different positions. *)
Theorem graph_nodes_are_co_investors (df : list row) :
  (forall n, n ∈ nodes (build_graph df)
             <-> exists r, r ∈ df
                   /\ n ∈ List.filter PyStr.truthy (row_investors r)
                   /\ 2 <= length (List.filter PyStr.truthy (row_investors r)))
  /\ (forall a b, adjacent (build_graph df) a b
                  <-> exists r i j, r ∈ df /\ i <> j
                        /\ List.filter PyStr.truthy (row_investors r) !! i = Some a
                        /\ List.filter PyStr.truthy (row_investors r) !! j = Some b)
  /\ (forall n, n ∈ nodes (build_graph df) ->
                n <> EmptyString /\ PyStr.strip n = n).
Proof.
  assert (Hnodes : forall n, n ∈ nodes (build_graph df)
             <-> exists r, r ∈ df
                   /\ n ∈ List.filter PyStr.truthy (row_investors r)
                   /\ 2 <= length (List.filter PyStr.truthy (row_investors r))).
  { intros n. rewrite elem_of_nodes, elem_of_dom_build_graph. split.
    - intros (m & Hm). apply adjacent_build_graph_positions in Hm
        as (r & i & j & Hr & Hij & Hi & Hj).
      exists r. split; [exact Hr|]. split; [apply list_elem_of_lookup; eauto|].
      apply lookup_lt_Some in Hi, Hj. lia.
    - intros (r & Hr & Hn & Hlen).
      apply list_elem_of_lookup in Hn as [i Hi].
      set (j := if decide (i = 0) then 1 else 0).
      assert (Hj : j < length (List.filter PyStr.truthy (row_investors r)))
        by (unfold j; destruct (decide (i = 0)); lia).
      apply lookup_lt_is_Some in Hj as [m Hm].
      exists m. apply adjacent_build_graph_positions.
      exists r, i, j. repeat split; auto.
      unfold j. destruct (decide (i = 0)); lia. }
  split; [exact Hnodes|]. split; [apply adjacent_build_graph_positions|].
  intros n Hn. apply Hnodes in Hn as (r & _ & Hn & _).
  rewrite list_elem_of_In, filter_In, <- list_elem_of_In, truthy_spec in Hn.
  destruct Hn as [Hn Hne]. split; [exact Hne|].
  unfold row_investors in Hn. apply list_elem_of_fmap in Hn as (s & -> & _).
  apply strip_idemp.
Qed.

Lemma elem_of_nodes_to_remove_rounds G info min_rounds n :
  n ∈ nodes_to_remove_rounds G info min_rounds
  <-> n ∈ nodes G /\ (Z.of_nat (rounds_or 0 info n) < min_rounds)%Z.
Proof.
  unfold nodes_to_remove_rounds.
  now rewrite list_elem_of_In, filter_In, <- list_elem_of_In, Z.ltb_lt.
Qed.

Lemma elem_of_nodes_filter_rounds G info min_rounds n :
  n ∈ nodes (filter_rounds G info min_rounds)
  <-> n ∈ nodes G /\ ~ (Z.of_nat (rounds_or 0 info n) < min_rounds)%Z.
Proof.
  unfold filter_rounds.
  rewrite !elem_of_nodes, dom_remove_nodes_from, elem_of_difference,
    elem_of_list_to_set, elem_of_nodes_to_remove_rounds, elem_of_nodes.
  tauto.
Qed.

Lemma symmetric_filter_degree G min_degree :
  symmetric G -> symmetric (filter_degree G min_degree).
Proof. apply symmetric_remove_nodes_from. Qed.

Lemma symmetric_pruned_graph float_of_str df min_degree min_rounds :
  symmetric (pruned_graph float_of_str df min_degree min_rounds).
Proof.
  apply symmetric_remove_nodes_from, symmetric_filter_degree,
    symmetric_build_graph.
Qed.

Lemma elem_of_nodes_pruned_graph float_of_str df min_degree min_rounds n :
  n ∈ nodes (pruned_graph float_of_str df min_degree min_rounds)
  <-> n ∈ nodes (build_graph df)
      /\ (min_degree <= Z.of_nat (degree (build_graph df) n))%Z
      /\ (min_rounds <= Z.of_nat (rounds_or 0 (aggregate float_of_str df) n))%Z.
Proof.
  unfold pruned_graph.
  rewrite elem_of_nodes_filter_rounds, elem_of_nodes_filter_degree, !Z.nlt_ge.
  tauto.
Qed.

Lemma adjacent_pruned_graph float_of_str df min_degree min_rounds a b :
  adjacent (pruned_graph float_of_str df min_degree min_rounds) a b
  <-> adjacent (build_graph df) a b
      /\ a ∈ nodes (pruned_graph float_of_str df min_degree min_rounds)
      /\ b ∈ nodes (pruned_graph float_of_str df min_degree min_rounds).
Proof.
  rewrite !elem_of_nodes_pruned_graph. unfold pruned_graph, filter_rounds.
  rewrite (adjacent_remove_nodes_from _ _ _ _
             (symmetric_filter_degree _ min_degree (symmetric_build_graph df))).
  unfold filter_degree at 1.
  rewrite (adjacent_remove_nodes_from _ _ _ _ (symmetric_build_graph df)).
  rewrite !elem_of_nodes_to_remove_rounds, !elem_of_nodes_filter_degree,
    !elem_of_nodes_to_remove_degree, !elem_of_nodes, <- !Z.nlt_ge.
  split; [|tauto].
  intros ((Hab & Ha & Hb) & Ha' & Hb').
  destruct (adjacent_dom _ _ _ (symmetric_build_graph df) Hab) as [Hda Hdb].
  tauto.
Qed.

(** X5.  After the two filters, the nodes left are the nodes of the built
    graph whose degree there is at least [min_degree] and whose aggregated
    rounds are at least [min_rounds]; both tests read the graph and the
    statistics as built, not what earlier removals left.  Two nodes left are
    neighbours exactly when they were. *)
Theorem pruned_graph_keeps (float_of_str : string -> option float)
    (df : list row) (min_degree min_rounds : Z) :
  (forall n,
      n ∈ nodes (pruned_graph float_of_str df min_degree min_rounds)
      <-> n ∈ nodes (build_graph df)
          /\ (min_degree <= Z.of_nat (degree (build_graph df) n))%Z
          /\ (min_rounds
              <= Z.of_nat (rounds_or 0 (aggregate float_of_str df) n))%Z)
  /\ (forall a b,
         adjacent (pruned_graph float_of_str df min_degree min_rounds) a b
         <-> adjacent (build_graph df) a b
             /\ a ∈ nodes (pruned_graph float_of_str df min_degree min_rounds)
             /\ b ∈ nodes (pruned_graph float_of_str df min_degree min_rounds)).
Proof.
  split.
  - intros n. apply elem_of_nodes_pruned_graph.
  - intros a b. apply adjacent_pruned_graph.
Qed.

(** X6.  The pruned graph is still an undirected graph without dangling
    ends: neighbourhood is mutual and every neighbour of a node is a node,
    so the edges that are drawn join nodes that are drawn. *)
Theorem pruned_graph_undirected (float_of_str : string -> option float)
    (df : list row) (min_degree min_rounds : Z) (a b : string) :
  adjacent (pruned_graph float_of_str df min_degree min_rounds) a b ->
  adjacent (pruned_graph float_of_str df min_degree min_rounds) b a
  /\ a ∈ nodes (pruned_graph float_of_str df min_degree min_rounds)
  /\ b ∈ nodes (pruned_graph float_of_str df min_degree min_rounds).
Proof.
  intros H. split; [now apply symmetric_pruned_graph|].
  apply adjacent_pruned_graph in H. tauto.
Qed.

Lemma pruned_graph_undirected_witness :
  adjacent (pruned_graph float_of_digits path_rows 1 1) "B" "A"
  /\ "A" ∈ nodes (pruned_graph float_of_digits path_rows 1 1)
  /\ "B" ∈ nodes (pruned_graph float_of_digits path_rows 1 1).
Proof.
  apply (pruned_graph_undirected float_of_digits path_rows 1 1 "A" "B").
  exists {["B"]}. split; [vm_compute; reflexivity|set_solver].
Defined.

Lemma filter_none {A} (f : A -> bool) (l : list A) :
  (forall x, x ∈ l -> f x = false) -> List.filter f l = [].
Proof.
  induction l as [|x l IH]; intros H; [reflexivity|].
  cbn [List.filter]. rewrite (H x) by left. apply IH.
  intros y Hy. apply H. now right.
Qed.

Lemma degree_build_graph_pos df n :
  n ∈ nodes (build_graph df) -> 1 <= degree (build_graph df) n.
Proof.
  rewrite elem_of_nodes, elem_of_dom_build_graph.
  intros (m & s & Hs & Hm). unfold degree. rewrite Hs.
  destruct (size s) eqn:E; [|lia].
  apply size_empty_inv in E. set_solver.
Qed.

Lemma rounds_build_graph_pos float_of_str df n :
  n ∈ nodes (build_graph df) -> 1 <= rounds_or 0 (aggregate float_of_str df) n.
Proof.
  intros Hn. apply elem_of_nodes_build_graph in Hn as (r & Hr & Ht & Hin).
  now apply (rounds_ge_listing float_of_str df r).
Qed.

(** X7.  With both thresholds at most 1, the values the dashboard starts
    with, the two filters remove nothing: every node of the built graph has
    a neighbour and a round. *)
Theorem low_thresholds_prune_nothing (float_of_str : string -> option float)
    (df : list row) (min_degree min_rounds : Z) :
  (min_degree <= 1)%Z -> (min_rounds <= 1)%Z ->
  pruned_graph float_of_str df min_degree min_rounds = build_graph df.
Proof.
  intros Hd Hr. unfold pruned_graph.
  assert (H1 : filter_degree (build_graph df) min_degree = build_graph df).
  { unfold filter_degree, nodes_to_remove_degree. rewrite filter_none; [reflexivity|].
    intros n Hn. apply degree_build_graph_pos in Hn. apply Z.ltb_ge. lia. }
  rewrite H1. unfold filter_rounds, nodes_to_remove_rounds.
  rewrite filter_none; [reflexivity|].
  intros n Hn. apply (rounds_build_graph_pos float_of_str) in Hn.
  apply Z.ltb_ge. lia.
Qed.

Lemma low_thresholds_prune_nothing_witness :
  pruned_graph float_of_digits path_rows 1 1 = build_graph path_rows.
Proof.
  apply (low_thresholds_prune_nothing float_of_digits path_rows 1 1); lia.
Defined.

(** ** The figure *)

Lemma generate_network_figure_render float_of_str re_compile df
    start_year end_year min_degree min_rounds investor_filter df_filtered :
  record_filter re_compile start_year end_year investor_filter df
  = Returned df_filtered ->
  generate_network_figure float_of_str re_compile df start_year end_year
                          min_degree min_rounds investor_filter
  = Returned (render start_year end_year min_degree min_rounds
                     (aggregate float_of_str df_filtered)
                     (pruned_graph float_of_str df_filtered min_degree min_rounds)).
Proof. intros H. unfold generate_network_figure. now rewrite H. Qed.

Lemma render_no_nodes start_year end_year min_degree min_rounds info G :
  nodes G = [] ->
  render start_year end_year min_degree min_rounds info G = no_investors_figure.
Proof. intros H. unfold render. now rewrite H. Qed.

Lemma render_nodes start_year end_year min_degree min_rounds info G :
  nodes G <> [] ->
  render start_year end_year min_degree min_rounds info G
  = Figure (Some (TitleNetwork start_year end_year min_degree min_rounds))
           (Some (Network (edges G) (map (view_node G info) (nodes G))
                    (foldr Nat.min (hd 0 (map (degree G) (nodes G)))
                           (map (degree G) (nodes G)))
                    (foldr Nat.max (hd 0 (map (degree G) (nodes G)))
                           (map (degree G) (nodes G))))).
Proof. intros H. unfold render. destruct (nodes G); [contradiction|reflexivity]. Qed.

Lemma nodes_nil_iff (G : graph) : nodes G = [] <-> forall n, n ∉ nodes G.
Proof.
  split.
  - intros H n. rewrite H. apply not_elem_of_nil.
  - intros H. destruct (nodes G) as [|n l]; [reflexivity|].
    exfalso. apply (H n). left.
Qed.

(** X8.  The pipeline returns the figure that only carries the title
    [No investors meet ...] exactly when no node is left after the two
    filters.  This is the case when no row passes the record filter, when no
    filtered row lists two non-empty names, and when [min_degree] exceeds
    the degree of every node. *)
Theorem empty_result_cases (float_of_str : string -> option float)
    (re_compile : string -> option (string -> bool)) (df df_filtered : list row)
    (start_year end_year min_degree min_rounds : Z)
    (investor_filter : option string) :
  record_filter re_compile start_year end_year investor_filter df
  = Returned df_filtered ->
  let result := generate_network_figure float_of_str re_compile df start_year
                  end_year min_degree min_rounds investor_filter in
  (result = Returned no_investors_figure
   <-> nodes (pruned_graph float_of_str df_filtered min_degree min_rounds) = [])
  /\ (df_filtered = [] -> result = Returned no_investors_figure)
  /\ ((forall r, r ∈ df_filtered ->
         length (List.filter PyStr.truthy (row_investors r)) <= 1) ->
      result = Returned no_investors_figure)
  /\ ((forall n, n ∈ nodes (build_graph df_filtered) ->
         (Z.of_nat (degree (build_graph df_filtered) n) < min_degree)%Z) ->
      result = Returned no_investors_figure).
Proof.
  intros Hrf result. subst result.
  rewrite (generate_network_figure_render _ _ _ _ _ _ _ _ _ Hrf).
  assert (Hempty : nodes (pruned_graph float_of_str df_filtered min_degree min_rounds) = []
                   -> Returned (render start_year end_year min_degree min_rounds
                        (aggregate float_of_str df_filtered)
                        (pruned_graph float_of_str df_filtered min_degree min_rounds))
                      = Returned no_investors_figure).
  { intros H. now rewrite render_no_nodes. }
  assert (Hbuilt : nodes (build_graph df_filtered) = [] ->
                   nodes (pruned_graph float_of_str df_filtered min_degree min_rounds) = []).
  { rewrite !nodes_nil_iff. intros H n Hn.
    apply elem_of_nodes_pruned_graph in Hn as [Hn _]. now apply (H n). }
  split; [|split; [|split]].
  - split; [|exact Hempty].
    destruct (nodes (pruned_graph float_of_str df_filtered min_degree min_rounds))
      as [|n l] eqn:E; [reflexivity|].
    rewrite render_nodes by (rewrite E; discriminate). discriminate.
  - intros ->. apply Hempty, Hbuilt. reflexivity.
  - intros Hone. apply Hempty, Hbuilt, nodes_nil_iff. intros n Hn.
    apply elem_of_nodes_build_graph in Hn as Hr.
    rewrite elem_of_nodes, elem_of_dom_build_graph in Hn. destruct Hn as [m Hm].
    apply adjacent_build_graph_positions in Hm as (r & i & j & Hr' & Hij & Hi & Hj).
    specialize (Hone r Hr'). apply lookup_lt_Some in Hi, Hj. lia.
  - intros Hdeg. apply Hempty, nodes_nil_iff. intros n Hn.
    apply elem_of_nodes_pruned_graph in Hn as (Hn & Hd & _).
    specialize (Hdeg n Hn). lia.
Qed.

Lemma empty_result_cases_witness :
  generate_network_figure float_of_digits (fun _ => None) path_rows 2020 2025 3 1
                          (Some "All")
  = Returned no_investors_figure.
Proof.
  destruct (empty_result_cases float_of_digits (fun _ => None) path_rows path_rows
              2020 2025 3 1 (Some "All") eq_refl) as [[_ H] _].
  apply H. reflexivity.
Defined.

Lemma generate_network_figure_network float_of_str re_compile df
    start_year end_year min_degree min_rounds investor_filter title net :
  generate_network_figure float_of_str re_compile df start_year end_year
                          min_degree min_rounds investor_filter
  = Returned (Figure title (Some net)) ->
  exists df_filtered,
    record_filter re_compile start_year end_year investor_filter df
    = Returned df_filtered
    /\ nodes (pruned_graph float_of_str df_filtered min_degree min_rounds) <> []
    /\ Figure title (Some net)
       = render start_year end_year min_degree min_rounds
                (aggregate float_of_str df_filtered)
                (pruned_graph float_of_str df_filtered min_degree min_rounds).
Proof.
  intros H.
  destruct (record_filter re_compile start_year end_year investor_filter df)
    as [df_filtered|e] eqn:Hrf.
  - rewrite (generate_network_figure_render _ _ _ _ _ _ _ _ _ Hrf) in H.
    injection H as H. exists df_filtered. split; [reflexivity|].
    split; [|now symmetry]. intros Hnil.
    rewrite (render_no_nodes _ _ _ _ _ _ Hnil) in H. discriminate H.
  - unfold generate_network_figure in H. rewrite Hrf in H. discriminate H.
Qed.

Lemma pruned_graph_closed float_of_str df min_degree min_rounds a b :
  adjacent (pruned_graph float_of_str df min_degree min_rounds) a b ->
  a ∈ nodes (pruned_graph float_of_str df min_degree min_rounds)
  /\ b ∈ nodes (pruned_graph float_of_str df min_degree min_rounds).
Proof. intros H. apply adjacent_pruned_graph in H. tauto. Qed.

(** X9.  A figure with data is well formed.  Its title names the four
    parameters; its nodes are distinct names; every edge joins two of its
    nodes and no two edges stand for the same unordered pair; every node
    carries its statistics, with rounds at least 1 and at least
    [min_rounds], and its marker size is 5 plus twice its rounds. *)
Theorem network_figure_well_formed (float_of_str : string -> option float)
    (re_compile : string -> option (string -> bool)) (df : list row)
    (start_year end_year min_degree min_rounds : Z)
    (investor_filter : option string) (title : option figure_title)
    (net : network) :
  generate_network_figure float_of_str re_compile df start_year end_year
                          min_degree min_rounds investor_filter
  = Returned (Figure title (Some net)) ->
  title = Some (TitleNetwork start_year end_year min_degree min_rounds)
  /\ net_nodes net <> []
  /\ NoDup (map node_name (net_nodes net))
  /\ (forall u v, (u, v) ∈ net_edges net ->
                  u ∈ map node_name (net_nodes net)
                  /\ v ∈ map node_name (net_nodes net))
  /\ (forall i j e1 e2, i <> j -> net_edges net !! i = Some e1 ->
                        net_edges net !! j = Some e2 -> ~ same_unordered e1 e2)
  /\ (forall v, v ∈ net_nodes net ->
        exists d, node_details v = Some d
                  /\ 1 <= hover_rounds d
                  /\ (min_rounds <= Z.of_nat (hover_rounds d))%Z
                  /\ node_size v = 5 + 2 * hover_rounds d).
Proof.
  intros H.
  apply generate_network_figure_network in H as (dff & _ & Hne & Hfig).
  rewrite (render_nodes _ _ _ _ _ _ Hne) in Hfig.
  injection Hfig as -> ->. cbn [net_nodes net_edges].
  set (P := pruned_graph float_of_str dff min_degree min_rounds) in *.
  set (info := aggregate float_of_str dff).
  assert (Hnames : map node_name (map (view_node P info) (nodes P)) = nodes P).
  { rewrite map_map. cbn [view_node node_name]. apply map_id. }
  rewrite Hnames.
  split; [reflexivity|]. split.
  { intros Hnil. apply Hne. destruct (nodes P); [reflexivity|discriminate]. }
  split; [apply NoDup_nodes|]. split.
  { intros u v Huv. apply elem_of_edges_adjacent in Huv.
    apply (pruned_graph_closed float_of_str dff min_degree min_rounds) in Huv.
    exact Huv. }
  split; [apply edges_distinct|].
  intros v Hv. apply list_elem_of_fmap in Hv as (n & -> & Hn).
  apply elem_of_nodes_pruned_graph in Hn as (Hn & _ & Hr).
  pose proof (rounds_build_graph_pos float_of_str dff n Hn) as Hpos.
  fold info in Hr, Hpos. unfold view_node, rounds_or in *.
  cbn [node_details node_size].
  destruct (info !! n) as [st|]; [|lia].
  eexists. split; [reflexivity|]. cbn [hover_rounds]. auto.
Qed.

Lemma network_figure_well_formed_witness :
  exists net,
    generate_network_figure float_of_digits (fun _ => None) path_rows 2020 2025
                            1 1 (Some "All")
    = Returned (Figure (Some (TitleNetwork 2020 2025 1 1)) (Some net))
    /\ NoDup (map node_name (net_nodes net)).
Proof.
  eexists. split; [vm_compute; reflexivity|].
  eapply (network_figure_well_formed float_of_digits (fun _ => None) path_rows
           2020 2025 1 1 (Some "All")).
  vm_compute. reflexivity.
Defined.

Lemma foldr_min_le (l : list nat) d x :
  x ∈ l -> foldr Nat.min d l <= x.
Proof.
  induction l as [|y l IH]; intros H; [inversion H|].
  cbn [foldr]. apply elem_of_cons in H as [->|H]; [lia|].
  specialize (IH H). lia.
Qed.

Lemma foldr_max_ge (l : list nat) d x :
  x ∈ l -> x <= foldr Nat.max d l.
Proof.
  induction l as [|y l IH]; intros H; [inversion H|].
  cbn [foldr]. apply elem_of_cons in H as [->|H]; [lia|].
  specialize (IH H). lia.
Qed.

Lemma foldr_min_elem (l : list nat) d : d ∈ l -> foldr Nat.min d l ∈ l.
Proof.
  induction l as [|y l IH]; intros H; [inversion H|].
  cbn [foldr]. destruct (decide (d ∈ l)) as [Hd|Hd].
  - specialize (IH Hd). destruct (Nat.min_spec y (foldr Nat.min d l)) as [[_ ->]|[_ ->]];
      [left|now right].
  - apply elem_of_cons in H as [->|H]; [|contradiction].
    destruct (Nat.min_spec y (foldr Nat.min y l)) as [[_ ->]|[Hle ->]]; [left|].
    clear IH Hd. assert (Hy : foldr Nat.min y l = y \/ foldr Nat.min y l ∈ l).
    { clear Hle. induction l as [|z l IHl]; [now left|]. cbn [foldr].
      destruct (Nat.min_spec z (foldr Nat.min y l)) as [[_ ->]|[_ ->]].
      - right. left.
      - destruct IHl as [->|H]; [now left|right; now right]. }
    destruct Hy as [->|Hy]; [left|now right].
Qed.

Lemma foldr_max_elem (l : list nat) d : d ∈ l -> foldr Nat.max d l ∈ l.
Proof.
  intros H.
  assert (Hy : forall k, foldr Nat.max d k = d \/ foldr Nat.max d k ∈ k).
  { induction k as [|z k IHk]; [now left|]. cbn [foldr].
    destruct (Nat.max_spec z (foldr Nat.max d k)) as [[_ ->]|[_ ->]].
    - destruct IHk as [->|Hk]; [now left|right; now right].
    - right. left. }
  destruct (Hy l) as [->|Hl]; assumption.
Qed.

(** X10.  The colour scale of a figure spans the degrees of its nodes: every
    node's colour value lies between [cmin] and [cmax], and both bounds are
    the degree of some node. *)
Theorem colour_scale_bounds (float_of_str : string -> option float)
    (re_compile : string -> option (string -> bool)) (df : list row)
    (start_year end_year min_degree min_rounds : Z)
    (investor_filter : option string) (title : option figure_title)
    (net : network) :
  generate_network_figure float_of_str re_compile df start_year end_year
                          min_degree min_rounds investor_filter
  = Returned (Figure title (Some net)) ->
  (forall v, v ∈ net_nodes net ->
             net_cmin net <= node_degree v <= net_cmax net)
  /\ (exists v, v ∈ net_nodes net /\ node_degree v = net_cmin net)
  /\ (exists v, v ∈ net_nodes net /\ node_degree v = net_cmax net).
Proof.
  intros H.
  apply generate_network_figure_network in H as (dff & _ & Hne & Hfig).
  rewrite (render_nodes _ _ _ _ _ _ Hne) in Hfig.
  injection Hfig as -> ->. cbn [net_nodes net_cmin net_cmax].
  set (P := pruned_graph float_of_str dff min_degree min_rounds) in *.
  set (info := aggregate float_of_str dff).
  set (degs := map (degree P) (nodes P)).
  assert (Hdeg : forall x, x ∈ degs <->
            exists v, v ∈ map (view_node P info) (nodes P) /\ node_degree v = x).
  { intros x. unfold degs. rewrite list_elem_of_fmap. split.
    - intros (n & -> & Hn). exists (view_node P info n).
      split; [|reflexivity]. apply list_elem_of_fmap. eauto.
    - intros (v & Hv & <-). apply list_elem_of_fmap in Hv as (n & -> & Hn). eauto. }
  assert (Hhd : hd 0 degs ∈ degs).
  { unfold degs. destruct (nodes P); [contradiction|left]. }
  split; [|split].
  - intros v Hv. assert (Hx : node_degree v ∈ degs) by (apply Hdeg; eauto).
    split; [now apply foldr_min_le|now apply foldr_max_ge].
  - apply Hdeg, foldr_min_elem, Hhd.
  - apply Hdeg, foldr_max_elem, Hhd.
Qed.

Lemma colour_scale_bounds_witness :
  exists v, v ∈ [NodeView "B" 0 (Some (Hover 2 0 ["T | O | S"])) 9]
            /\ node_degree v = 0.
Proof.
  apply (colour_scale_bounds float_of_digits (fun _ => None) path_rows
           2020 2025 2 1 (Some "All")
           (Some (TitleNetwork 2020 2025 2 1))
           (Network [] [NodeView "B" 0 (Some (Hover 2 0 ["T | O | S"])) 9] 0 0)).
  vm_compute. reflexivity.
Defined.

(** ** The statistics *)

Lemma entry_of_snoc L m d :
  Some (bump m d (default fresh_stats (entry_of L))) = entry_of (L ++ [(m, d)]).
Proof.
  destruct L as [|p L]; [reflexivity|].
  cbn [entry_of default]. unfold bump, append_transaction, add_money, add_round.
  cbn [rounds money transactions].
  assert (H : (p :: L) ++ [(m, d)] = p :: (L ++ [(m, d)])) by reflexivity.
  rewrite H at 1. cbn [entry_of]. rewrite <- H. clear H.
  now rewrite length_app, !fmap_app, fold_left_app.
Qed.

Lemma fold_entry_step_listings m d x investors L :
  fold_left (entry_step m d x) investors (entry_of L)
  = entry_of (L ++ replicate (occurrences x investors) (m, d)).
Proof.
  revert L. induction investors as [|inv l IH]; intros L; cbn [fold_left].
  - unfold occurrences. cbn. now rewrite app_nil_r.
  - rewrite occurrences_cons. unfold entry_step at 2.
    destruct (decide (inv = x)).
    + rewrite entry_of_snoc, IH, <- app_assoc. reflexivity.
    + apply IH.
Qed.

Lemma entry_row_listings float_of_str x L r :
  entry_row float_of_str x (entry_of L) r
  = entry_of (L ++ row_listings float_of_str x r).
Proof.
  unfold entry_row, row_listings. destruct (PyStr.truthy (investor_names r)).
  - apply fold_entry_step_listings.
  - now rewrite app_nil_r.
Qed.

Lemma aggregate_listings float_of_str df x :
  aggregate float_of_str df !! x = entry_of (listings float_of_str x df).
Proof.
  rewrite aggregate_lookup. change (@None investor_stats) with (entry_of []).
  change (listings float_of_str x df) with ([] ++ listings float_of_str x df).
  generalize (@nil (float * string)).
  induction df as [|r df IH]; intros L; cbn [fold_left].
  - unfold listings. cbn. now rewrite app_nil_r.
  - rewrite entry_row_listings, IH. unfold listings. cbn [flat_map].
    now rewrite app_assoc.
Qed.

(** X11.  The entry of a name is the result of its listings, read in row
    order: [rounds] is their number, [money] is the floating-point sum of the
    rows' money taken from 0.0 in that order, and [transactions] holds the
    rows' transaction details in that order; a name that is not listed has
    no entry.  In every entry [rounds] is the length of [transactions]. *)
Theorem aggregate_closed_form (float_of_str : string -> option float)
    (df : list row) (x : string) :
  aggregate float_of_str df !! x = entry_of (listings float_of_str x df)
  /\ (forall st, aggregate float_of_str df !! x = Some st ->
        rounds st = length (listings float_of_str x df)
        /\ money st
           = fold_left PrimFloat.add (listings float_of_str x df).*1 0%float
        /\ transactions st = (listings float_of_str x df).*2
        /\ rounds st = length (transactions st)).
Proof.
  split; [apply aggregate_listings|].
  intros st. rewrite aggregate_listings.
  destruct (listings float_of_str x df) as [|p L] eqn:E; [discriminate|].
  cbn [entry_of]. intros [= <-]. cbn [rounds money transactions].
  repeat split; try reflexivity. exact (eq_sym (length_fmap snd (p :: L))).
Qed.

Lemma append_assoc (a b c : string) : (a +:+ b) +:+ c = a +:+ (b +:+ c).
Proof.
  induction a as [|x a IH]; [reflexivity|]. now rewrite !append_cons, IH.
Qed.

Lemma append_nil_r (a : string) : a +:+ EmptyString = a.
Proof. induction a as [|x a IH]; [reflexivity|]. now rewrite append_cons, IH. Qed.

Lemma lstrip_suffix s : exists a, s = a +:+ PyStr.lstrip s.
Proof.
  induction s as [|c s [a Ha]]; [now exists EmptyString|].
  cbn [PyStr.lstrip]. destruct (PyStr.isspace c).
  - exists (String c a). now rewrite append_cons, <- Ha.
  - now exists EmptyString.
Qed.

Lemma rstrip_prefix s : exists b, s = PyStr.rstrip s +:+ b.
Proof.
  induction s as [|c s [b Hb]]; [now exists EmptyString|].
  cbn [PyStr.rstrip]. destruct (PyStr.rstrip s) as [|c' t] eqn:E.
  - destruct (PyStr.isspace c).
    + now exists (String c s).
    + exists s. reflexivity.
  - exists b. now rewrite append_cons, <- Hb.
Qed.

Lemma strip_infix s : exists a b, s = a +:+ PyStr.strip s +:+ b.
Proof.
  destruct (lstrip_suffix s) as [a Ha].
  destruct (rstrip_prefix (PyStr.lstrip s)) as [b Hb].
  exists a, b. unfold PyStr.strip. now rewrite <- Hb.
Qed.

Lemma split_comma_head s : exists h t, PyStr.split_comma s = h :: t
                                       /\ exists b, s = h +:+ b.
Proof.
  induction s as [|c s (h & t & Hs & b & Hb)].
  - exists EmptyString, []. split; [reflexivity|now exists EmptyString].
  - cbn [PyStr.split_comma]. destruct (decide (c = ","%char)).
    + exists EmptyString, (PyStr.split_comma s).
      split; [reflexivity|]. now exists (String c s).
    + rewrite Hs. exists (String c h), t. split; [reflexivity|].
      exists b. now rewrite append_cons, <- Hb.
Qed.

Lemma split_comma_infix s seg :
  seg ∈ PyStr.split_comma s -> exists a b, s = a +:+ seg +:+ b.
Proof.
  revert seg. induction s as [|c s IH]; intros seg.
  - cbn [PyStr.split_comma]. intros ->%list_elem_of_singleton.
    now exists EmptyString, EmptyString.
  - cbn [PyStr.split_comma]. destruct (decide (c = ","%char)).
    + intros [->|H]%elem_of_cons.
      * now exists EmptyString, (String c s).
      * destruct (IH _ H) as (a & b & Hab).
        exists (String c a), b. now rewrite append_cons, <- Hab.
    + destruct (split_comma_head s) as (h & t & Hs & b & Hb). rewrite Hs.
      rewrite Hs in IH. intros [->|H]%elem_of_cons.
      * exists EmptyString, b. cbn. now rewrite append_cons, <- Hb.
      * destruct (IH seg) as (a & b' & Hab); [now right|].
        exists (String c a), b'. now rewrite append_cons, <- Hab.
Qed.

Lemma contains_infix p t s :
  PyStr.contains p t = true -> (exists a b, s = a +:+ t +:+ b) ->
  PyStr.contains p s = true.
Proof.
  rewrite !contains_spec. intros (a & b & ->) (a' & b' & ->).
  exists (a' +:+ a), (b +:+ b'). now rewrite !append_assoc.
Qed.

Lemma split_comma_no_comma s seg :
  seg ∈ PyStr.split_comma s -> PyStr.contains "," seg = false.
Proof.
  revert seg. induction s as [|c s IH]; intros seg.
  - cbn [PyStr.split_comma]. now intros ->%list_elem_of_singleton.
  - cbn [PyStr.split_comma]. destruct (decide (c = ","%char)) as [|Hc].
    + intros [->|H]%elem_of_cons; [reflexivity|now apply IH].
    + destruct (split_comma_head s) as (h & t & Hs & _). rewrite Hs.
      rewrite Hs in IH. intros [->|H]%elem_of_cons.
      * cbn [PyStr.contains String.prefix].
        destruct (ascii_dec "," c) as [<-|_]; [contradiction|].
        cbn [orb]. apply IH. left.
      * apply IH. now right.
Qed.

Lemma row_investors_no_comma r x :
  x ∈ row_investors r -> PyStr.contains "," x = false.
Proof.
  unfold row_investors. intros (seg & -> & Hseg)%list_elem_of_fmap.
  apply split_comma_no_comma in Hseg.
  destruct (PyStr.contains "," (PyStr.strip seg)) eqn:E; [|reflexivity].
  rewrite <- Hseg. symmetry. apply (contains_infix _ _ _ E), strip_infix.
Qed.

Lemma listings_nil_iff float_of_str x df :
  listings float_of_str x df = []
  <-> forall r, r ∈ df -> PyStr.truthy (investor_names r) = true ->
                x ∉ row_investors r.
Proof.
  unfold listings. induction df as [|r df IH]; cbn [flat_map].
  - split; [intros _ r H; inversion H|reflexivity].
  - rewrite app_nil, IH. unfold row_listings. split.
    + intros [Hr Hdf] r' [->|H]%elem_of_cons Ht; [|now apply Hdf].
      rewrite Ht in Hr. rewrite occurrences_pos.
      destruct (occurrences x (row_investors r)); [lia|discriminate].
    + intros H. split; [|intros r' Hr'; apply H; now right].
      destruct (PyStr.truthy (investor_names r)) eqn:Ht; [|reflexivity].
      specialize (H r (list_elem_of_here _ _) Ht).
      rewrite occurrences_pos in H.
      destruct (occurrences x (row_investors r)); [reflexivity|lia].
Qed.

Lemma elem_of_listings float_of_str x df p :
  p ∈ listings float_of_str x df ->
  exists r, r ∈ df /\ PyStr.truthy (investor_names r) = true
            /\ x ∈ row_investors r.
Proof.
  unfold listings. rewrite list_elem_of_In, in_flat_map.
  intros (r & Hr & Hp). exists r. rewrite list_elem_of_In. split; [exact Hr|].
  unfold row_listings in Hp.
  destruct (PyStr.truthy (investor_names r)); [|contradiction].
  split; [reflexivity|]. apply occurrences_pos.
  destruct (occurrences x (row_investors r)); [contradiction|lia].
Qed.

(** X12.  The keys of the statistics are the trimmed names that the filtered
    rows with a non-empty investor field list, and nothing else.  Every key
    is free of commas and is its own trimmed form. *)
Theorem stats_keys (float_of_str : string -> option float) (df : list row)
    (k : string) :
  (is_Some (aggregate float_of_str df !! k)
   <-> exists r, r ∈ df /\ PyStr.truthy (investor_names r) = true
                 /\ k ∈ row_investors r)
  /\ (is_Some (aggregate float_of_str df !! k) ->
      PyStr.strip k = k /\ PyStr.contains "," k = false).
Proof.
  assert (Hkey : is_Some (aggregate float_of_str df !! k)
                 <-> exists r, r ∈ df /\ PyStr.truthy (investor_names r) = true
                               /\ k ∈ row_investors r).
  { rewrite aggregate_listings. split.
    - intros Hsome.
      destruct (listings float_of_str k df) as [|p L] eqn:E;
        [now destruct Hsome|].
      apply (elem_of_listings float_of_str k df p). rewrite E. left.
    - intros (r & Hr & Ht & Hk).
      destruct (listings float_of_str k df) eqn:E; [|cbn; eauto].
      exfalso. now apply (proj1 (listings_nil_iff _ _ _) E r). }
  split; [exact Hkey|].
  intros (r & _ & _ & Hk)%Hkey. split; [|now apply (row_investors_no_comma r)].
  unfold row_investors in Hk. apply list_elem_of_fmap in Hk as (s & -> & _).
  apply strip_idemp.
Qed.

(** X13.  The hover log never shows more than 4 entries, the marker
    included; each of them is a transaction of the investor or the marker;
    and it is empty only for an investor without transactions. *)
Theorem hover_log_bounded (txs : list string) :
  length (hover_transactions txs) <= 4
  /\ (forall x, x ∈ hover_transactions txs -> x ∈ txs \/ x = "...")
  /\ (hover_transactions txs = [] <-> txs = []).
Proof.
  unfold hover_transactions. rewrite dict_fromkeys_first_seen.
  destruct (3 <? length (first_seen txs)) eqn:E.
  - apply Nat.ltb_lt in E. split; [|split].
    + rewrite length_app, length_take. cbn [length]. lia.
    + intros x [Hx|Hx]%elem_of_app.
      * left. apply elem_of_first_seen. now apply (subseteq_take 3).
      * right. now apply list_elem_of_singleton in Hx.
    + split.
      * intros H. apply (f_equal length) in H.
        rewrite length_app in H. cbn [length] in H. lia.
      * intros ->. cbn in E. lia.
  - apply Nat.ltb_ge in E. split; [lia|]. split.
    + intros x Hx. left. now apply elem_of_first_seen.
    + destruct txs; [tauto|]. cbn [first_seen]. split; discriminate.
Qed.

(** ** The investor perspective *)

Lemma lower_app a b : PyStr.lower (a +:+ b) = PyStr.lower a +:+ PyStr.lower b.
Proof.
  induction a as [|c a IH]; [reflexivity|].
  rewrite append_cons. cbn [PyStr.lower]. now rewrite append_cons, IH.
Qed.

(** A name that a row lists occurs in the row's investor field. *)
Lemma listed_contains r x :
  x ∈ row_investors r ->
  PyStr.contains (PyStr.lower x) (PyStr.lower (investor_names r)) = true.
Proof.
  unfold row_investors. intros (seg & -> & Hseg)%list_elem_of_fmap.
  apply split_comma_infix in Hseg as (a & b & Hab).
  destruct (strip_infix seg) as (a' & b' & Hseg).
  apply contains_spec.
  exists (PyStr.lower (a +:+ a')), (PyStr.lower (b' +:+ b)).
  rewrite <- !lower_app. f_equal.
  rewrite Hab. rewrite Hseg at 1. now rewrite !append_assoc.
Qed.

Lemma elem_of_filter_bool {A} (f : A -> bool) (l : list A) x :
  x ∈ List.filter f l <-> x ∈ l /\ f x = true.
Proof. now rewrite list_elem_of_In, filter_In, <- list_elem_of_In. Qed.

Lemma listed_count_filter x (g : row -> bool) (l : list row) :
  (forall r, r ∈ l -> g r = false -> x ∉ row_investors r) ->
  listed_count x (List.filter g l) = listed_count x l.
Proof.
  unfold listed_count. induction l as [|r l IH]; intros H; [reflexivity|].
  cbn [List.filter sum_list_with].
  rewrite <- IH by (intros r' Hr'; apply H; now right).
  destruct (g r) eqn:E; [reflexivity|].
  specialize (H r (list_elem_of_here _ _) E).
  rewrite occurrences_pos in H.
  destruct (occurrences x (row_investors r)); [reflexivity|lia].
Qed.

Lemma record_filter_plain_cases re_compile start_year end_year x df out :
  PyStr.plain_pattern x = true ->
  record_filter re_compile start_year end_year (Some x) df = Returned out ->
  out = List.filter (year_in_range start_year end_year) df
  \/ out = List.filter
             (fun r => PyStr.contains (PyStr.lower x)
                                      (PyStr.lower (investor_names r)))
             (List.filter (year_in_range start_year end_year) df).
Proof.
  intros Hplain. unfold record_filter.
  destruct (decide (Some x = Some "All")); [intros [= <-]; now left|].
  rewrite (str_contains_plain _ _ Hplain). intros [= <-]. now right.
Qed.

(** X14.  Choosing an investor by a name without metacharacters loses
    nothing of that investor: every row of the year range that lists the
    name is kept, so the investor's rounds and its neighbours in the built
    graph are what they are under [All]; and the graph built from the kept
    rows is a part of the graph built under [All]. *)
Theorem perspective_keeps_investor
    (re_compile : string -> option (string -> bool))
    (start_year end_year : Z) (x : string) (df out : list row) :
  PyStr.plain_pattern x = true ->
  record_filter re_compile start_year end_year (Some x) df = Returned out ->
  let in_range := List.filter (year_in_range start_year end_year) df in
  (forall r, r ∈ in_range -> x ∈ row_investors r -> r ∈ out)
  /\ (forall float_of_str,
         x <> EmptyString ->
         rounds_or 0 (aggregate float_of_str out) x
         = rounds_or 0 (aggregate float_of_str in_range) x)
  /\ (forall b, adjacent (build_graph out) x b
                <-> adjacent (build_graph in_range) x b)
  /\ (forall a b, adjacent (build_graph out) a b
                  -> adjacent (build_graph in_range) a b).
Proof.
  intros Hplain Hrf in_range.
  assert (Hkeep : forall r, r ∈ in_range -> x ∈ row_investors r -> r ∈ out).
  { intros r Hr Hx.
    destruct (record_filter_plain_cases _ _ _ _ _ _ Hplain Hrf) as [->| ->];
      [exact Hr|].
    apply elem_of_filter_bool. split; [exact Hr|now apply listed_contains]. }
  assert (Hsub : forall r, r ∈ out -> r ∈ in_range).
  { intros r Hr.
    destruct (record_filter_plain_cases _ _ _ _ _ _ Hplain Hrf) as [->| ->];
      [exact Hr|].
    now apply elem_of_filter_bool in Hr as [Hr _]. }
  split; [exact Hkeep|]. split; [|split].
  - intros float_of_str Hx. rewrite !rounds_listed_count by assumption.
    destruct (record_filter_plain_cases _ _ _ _ _ _ Hplain Hrf) as [->| ->];
      [reflexivity|].
    apply listed_count_filter. intros r _ Hg Hin.
    apply listed_contains in Hin. congruence.
  - intros b. rewrite !adjacent_build_graph_positions. split.
    + intros (r & i & j & Hr & H). exists r, i, j. split; [now apply Hsub|exact H].
    + intros (r & i & j & Hr & Hij & Hi & Hj). exists r, i, j.
      split; [|auto]. apply Hkeep; [exact Hr|].
      assert (Hx : x ∈ List.filter PyStr.truthy (row_investors r))
        by (apply list_elem_of_lookup; eauto).
      now apply elem_of_filter_bool in Hx as [Hx _].
  - intros a b. rewrite !adjacent_build_graph_positions.
    intros (r & i & j & Hr & H). exists r, i, j. split; [now apply Hsub|exact H].
Qed.

Lemma perspective_keeps_investor_witness :
  rounds_or 0 (aggregate float_of_digits [row_of "A,B"]) "A"
  = rounds_or 0 (aggregate float_of_digits
                   (List.filter (year_in_range 2020 2025) path_rows)) "A".
Proof.
  destruct (perspective_keeps_investor (fun _ => None) 2020 2025 "A" path_rows
              [row_of "A,B"] eq_refl eq_refl) as (_ & H & _).
  apply H. discriminate.
Defined.

(** ** Module-level data *)

Lemma elem_of_all_investors df x :
  x ∈ all_investors df <-> exists r, r ∈ df /\ x ∈ row_investors r.
Proof.
  unfold all_investors.
  rewrite merge_sort_Permutation, elem_of_elements, elem_of_list_to_set,
    list_elem_of_In, in_flat_map.
  split; intros (r & Hr & Hx); exists r; rewrite ?list_elem_of_In in *; auto.
Qed.

(** X15.  The investor list of the dropdown holds exactly the trimmed names
    that the rows of the data list, empty fields and empty segments
    included, each once and in ascending order.  Whatever rows are filtered
    from the data, every key of the statistics and every node of the graph is
    in that list. *)
Theorem all_investors_spec (df : list row) :
  (forall x, x ∈ all_investors df <-> exists r, r ∈ df /\ x ∈ row_investors r)
  /\ NoDup (all_investors df)
  /\ StronglySorted String.le (all_investors df)
  /\ (forall (float_of_str : string -> option float) (df_filtered : list row) k,
         df_filtered ⊆ df ->
         is_Some (aggregate float_of_str df_filtered !! k) ->
         k ∈ all_investors df)
  /\ (forall (df_filtered : list row) n,
         df_filtered ⊆ df -> n ∈ nodes (build_graph df_filtered) ->
         n ∈ all_investors df).
Proof.
  split; [apply elem_of_all_investors|]. split; [|split; [|split]].
  - unfold all_investors. rewrite merge_sort_Permutation. apply NoDup_elements.
  - apply StronglySorted_merge_sort; apply _.
  - intros float_of_str dff k Hsub Hk. apply elem_of_all_investors.
    rewrite aggregate_listings in Hk.
    destruct (listings float_of_str k dff) as [|p L] eqn:E; [now destruct Hk|].
    destruct (elem_of_listings float_of_str k dff p) as (r & Hr & _ & Hin);
      [rewrite E; left|]. eauto.
  - intros dff n Hsub Hn. apply elem_of_all_investors.
    apply elem_of_nodes_build_graph in Hn as (r & Hr & _ & Hin). eauto.
Qed.

Lemma contains_empty s : PyStr.contains EmptyString s = true.
Proof. now destruct s. Qed.

(** X16.  The empty name can be an option of the dropdown: it is one as soon
    as a row has an empty investor field or an empty segment.  Chosen as the
    investor, it is searched for as a name, is found in every field, and so
    keeps the rows that [All] keeps. *)
Theorem empty_name_option :
  (forall (df : list row) r,
      r ∈ df -> investor_names r = EmptyString ->
      EmptyString ∈ investor_options df)
  /\ (forall (df : list row) r,
         r ∈ df -> EmptyString ∈ row_investors r ->
         EmptyString ∈ investor_options df)
  /\ (forall (re_compile : string -> option (string -> bool))
             (start_year end_year : Z) (df : list row),
         record_filter re_compile start_year end_year (Some EmptyString) df
         = record_filter re_compile start_year end_year (Some "All") df).
Proof.
  assert (H : forall (df : list row) r,
             r ∈ df -> EmptyString ∈ row_investors r ->
             EmptyString ∈ investor_options df).
  { intros df r Hr He. unfold investor_options. right.
    apply elem_of_all_investors. eauto. }
  split; [|split; [exact H|]].
  - intros df r Hr He. apply (H df r Hr).
    rewrite (row_investors_empty _ He). left.
  - intros re_compile start_year end_year df.
    rewrite record_filter_all, record_filter_plain by (discriminate || reflexivity).
    f_equal. apply filter_ext. intros r. cbn [PyStr.lower].
    now rewrite contains_empty, andb_true_r.
Qed.

Lemma foldr_Zmin_le (l : list Z) d x :
  x ∈ d :: l -> (foldr Z.min d l <= x)%Z.
Proof.
  induction l as [|y l IH]; cbn [foldr].
  - intros ->%list_elem_of_singleton. lia.
  - intros [->|[->|H]%elem_of_cons]%elem_of_cons.
    + specialize (IH (list_elem_of_here _ _)). lia.
    + lia.
    + assert (foldr Z.min d l <= x)%Z by (apply IH; now right). lia.
Qed.

Lemma foldr_Zmax_ge (l : list Z) d x :
  x ∈ d :: l -> (x <= foldr Z.max d l)%Z.
Proof.
  induction l as [|y l IH]; cbn [foldr].
  - intros ->%list_elem_of_singleton. lia.
  - intros [->|[->|H]%elem_of_cons]%elem_of_cons.
    + specialize (IH (list_elem_of_here _ _)). lia.
    + lia.
    + assert (x <= foldr Z.max d l)%Z by (apply IH; now right). lia.
Qed.

Lemma foldr_Zmin_elem (l : list Z) d : foldr Z.min d l ∈ d :: l.
Proof.
  induction l as [|y l IH]; cbn [foldr]; [left|].
  destruct (Z.min_spec y (foldr Z.min d l)) as [[_ ->]|[_ ->]].
  - right. left.
  - apply elem_of_cons in IH as [->|IH]; [left|right; now right].
Qed.

Lemma foldr_Zmax_elem (l : list Z) d : foldr Z.max d l ∈ d :: l.
Proof.
  induction l as [|y l IH]; cbn [foldr]; [left|].
  destruct (Z.max_spec y (foldr Z.max d l)) as [[_ ->]|[_ ->]].
  - apply elem_of_cons in IH as [->|IH]; [left|right; now right].
  - right. left.
Qed.

Lemma elem_of_parsed_years df y :
  y ∈ parsed_years df <-> exists r, r ∈ df /\ announced_year r = Some y.
Proof. unfold parsed_years. apply list_elem_of_omap. Qed.

(** X17.  The year bounds of the data.  [min_year] and [max_year] fail
    together, exactly when no row has a parsed date.  Otherwise they are
    years of rows, every parsed year lies between them, and the record
    filter run on the two bounds under [All] keeps exactly the rows with a
    parsed date. *)
Theorem year_bounds (df : list row) :
  (min_year df = None <-> forall r, r ∈ df -> announced_year r = None)
  /\ (max_year df = None <-> min_year df = None)
  /\ (forall lo hi,
         min_year df = Some lo -> max_year df = Some hi ->
         (lo <= hi)%Z
         /\ (forall r y, r ∈ df -> announced_year r = Some y -> (lo <= y <= hi)%Z)
         /\ (exists r, r ∈ df /\ announced_year r = Some lo)
         /\ (exists r, r ∈ df /\ announced_year r = Some hi)
         /\ forall re_compile,
              record_filter re_compile lo hi (Some "All") df
              = Returned (List.filter
                            (fun r => bool_decide (is_Some (announced_year r))) df)).
Proof.
  unfold min_year, max_year.
  destruct (parsed_years df) as [|y0 ys] eqn:E.
  - split; [|split; [tauto|discriminate]].
    split; [|reflexivity]. intros _ r Hr.
    destruct (announced_year r) as [y|] eqn:Hy; [|reflexivity].
    assert (Hin : y ∈ parsed_years df) by (apply elem_of_parsed_years; eauto).
    rewrite E in Hin. inversion Hin.
  - split; [|split; [split; discriminate|]].
    + split; [discriminate|]. intros H.
      assert (Hin : y0 ∈ parsed_years df) by (rewrite E; left).
      apply elem_of_parsed_years in Hin as (r & Hr & Hy).
      rewrite (H r Hr) in Hy. discriminate.
    + intros lo hi [= <-] [= <-].
      assert (Hall : forall r y, r ∈ df -> announced_year r = Some y ->
                (foldr Z.min y0 ys <= y <= foldr Z.max y0 ys)%Z).
      { intros r y Hr Hy.
        assert (Hin : y ∈ y0 :: ys)
          by (rewrite <- E; apply elem_of_parsed_years; eauto).
        split; [now apply foldr_Zmin_le|now apply foldr_Zmax_ge]. }
      assert (Hlo : exists r, r ∈ df /\ announced_year r = Some (foldr Z.min y0 ys)).
      { apply elem_of_parsed_years. rewrite E. apply foldr_Zmin_elem. }
      assert (Hhi : exists r, r ∈ df /\ announced_year r = Some (foldr Z.max y0 ys)).
      { apply elem_of_parsed_years. rewrite E. apply foldr_Zmax_elem. }
      split; [|split; [exact Hall|split; [exact Hlo|split; [exact Hhi|]]]].
      * destruct Hlo as (r & Hr & Hy). specialize (Hall r _ Hr Hy). lia.
      * intros re_compile. rewrite record_filter_all. f_equal.
        apply filter_ext_in. intros r Hr. apply list_elem_of_In in Hr.
        unfold year_in_range. destruct (announced_year r) as [y|] eqn:Hy.
        -- specialize (Hall r y Hr Hy).
           rewrite bool_decide_eq_true_2 by eauto.
           apply andb_true_iff. split; apply Z.leb_le; lia.
        -- rewrite bool_decide_eq_false_2; [reflexivity|]. now intros [? ?].
Qed.

(** ** More on the graph *)

Lemma graph_eq (G G' : graph) :
  (forall n, n ∈ dom G <-> n ∈ dom G') ->
  (forall a b, adjacent G a b <-> adjacent G' a b) ->
  G = G'.
Proof.
  intros Hdom Hadj. apply map_eq. intros n.
  specialize (Hdom n). rewrite !elem_of_dom in Hdom.
  destruct (G !! n) as [s|] eqn:E, (G' !! n) as [s'|] eqn:E'.
  - f_equal. apply set_eq. intros b. specialize (Hadj n b). unfold adjacent in Hadj.
    rewrite E, E' in Hadj. split; intros Hb.
    + destruct (proj1 Hadj) as (t & [= <-] & Ht); eauto.
    + destruct (proj2 Hadj) as (t & [= <-] & Ht); eauto.
  - destruct (proj1 Hdom) as [? ?]; [eauto|discriminate].
  - destruct (proj2 Hdom) as [? ?]; [eauto|discriminate].
  - reflexivity.
Qed.

Lemma build_graph_same_rows df df' :
  (forall r, r ∈ df <-> r ∈ df') -> build_graph df = build_graph df'.
Proof.
  intros H.
  assert (Hadj : forall a b, adjacent (build_graph df) a b
                             <-> adjacent (build_graph df') a b).
  { intros a b. rewrite !adjacent_build_graph_positions.
    split; intros (r & i & j & Hr & Hrest); exists r, i, j;
      (split; [now apply H|exact Hrest]). }
  apply graph_eq; [|exact Hadj].
  intros n. rewrite !elem_of_dom_build_graph.
  split; intros [m Hm]; exists m; now apply Hadj.
Qed.

(** X18.  An edge is present or absent: the adjacency structure of the built
    graph depends on which rows are filtered, not on their order nor on how
    often a row occurs.  (The model does not keep the order in which nodes
    were inserted.) *)
Theorem build_graph_rows_as_set :
  (forall df df' : list row, build_graph (df ++ df') = build_graph (df' ++ df))
  /\ (forall df : list row, build_graph (df ++ df) = build_graph df)
  /\ (forall (df : list row) r, r ∈ df -> build_graph (r :: df) = build_graph df).
Proof.
  split; [|split].
  - intros df df'. apply build_graph_same_rows. intros r.
    rewrite !elem_of_app. tauto.
  - intros df. apply build_graph_same_rows. intros r. rewrite elem_of_app. tauto.
  - intros df r Hr. apply build_graph_same_rows. intros r'.
    rewrite elem_of_cons. split; [intros [->|H]; assumption|tauto].
Qed.

(** X19.  Raising a threshold never brings a node back: the nodes left
    under higher thresholds are among the nodes left under lower ones. *)
Theorem pruned_graph_monotone (float_of_str : string -> option float)
    (df : list row) (min_degree min_degree' min_rounds min_rounds' : Z)
    (n : string) :
  (min_degree <= min_degree')%Z -> (min_rounds <= min_rounds')%Z ->
  n ∈ nodes (pruned_graph float_of_str df min_degree' min_rounds') ->
  n ∈ nodes (pruned_graph float_of_str df min_degree min_rounds).
Proof.
  intros Hd Hr. rewrite !elem_of_nodes_pruned_graph.
  intros (Hn & H1 & H2). split; [exact Hn|]. split; lia.
Qed.

Lemma pruned_graph_monotone_witness :
  "B" ∈ nodes (pruned_graph float_of_digits path_rows 1 1).
Proof.
  apply (pruned_graph_monotone float_of_digits path_rows 1 2 1 2 "B");
    [lia|lia|].
  vm_compute. apply list_elem_of_here.
Defined.

(** X20.  The pipeline itself does not order the years: called with a start
    year after the end year, it filters every row out and returns the figure
    without investors, whatever the other parameters are, unless the
    investor filter raises. *)
Theorem inverted_range_gives_no_rows (float_of_str : string -> option float)
    (re_compile : string -> option (string -> bool)) (df out : list row)
    (start_year end_year min_degree min_rounds : Z)
    (investor_filter : option string) :
  (end_year < start_year)%Z ->
  record_filter re_compile start_year end_year investor_filter df = Returned out ->
  out = []
  /\ generate_network_figure float_of_str re_compile df start_year end_year
                             min_degree min_rounds investor_filter
     = Returned no_investors_figure.
Proof.
  intros Hlt Hrf.
  assert (Hout : out = []).
  { destruct out as [|r out]; [reflexivity|].
    destruct (record_filter_in_range _ _ _ _ _ _ r Hrf) as [_ Hy]; [left|].
    apply year_in_range_spec in Hy as (y & _ & Hy). lia. }
  split; [exact Hout|]. subst out.
  rewrite (generate_network_figure_render _ _ _ _ _ _ _ _ _ Hrf).
  f_equal.
Qed.

Lemma inverted_range_gives_no_rows_witness :
  generate_network_figure float_of_digits (fun _ => None) path_rows 2025 2020 1 1
                          (Some "All")
  = Returned no_investors_figure.
Proof.
  apply (inverted_range_gives_no_rows float_of_digits (fun _ => None) path_rows []
           2025 2020 1 1 (Some "All")); [lia|reflexivity].
Defined.
